(** * Tableau Tour: the layout engine, the tour player and the step store

    A shallow embedding of [src/App.jsx] (the player: [refreshTourItems],
    [updateBoxPositions], [handleNext], [handlePrevious], the step
    indicators and the render function) and of [src/Configure.jsx] (the
    authoring dialog: the row handlers, [handleSave] and the load effect),
    followed by the properties of the specification.

    Conventions of the embedding.
    - A JavaScript number that holds a pixel coordinate is a [Number]: an
      exact rational or [NaN].  This idealises finite doubles, and it is
      exact on integer pixels only ([Spec.pixel]): there every sum and
      difference of [updateBoxPositions] is an integer far below [2^53]
      and is computed without rounding; on fractions the doubles round and
      the rational model is off by that rounding.  The tiling and the
      meeting of the grey boxes, which compare computed numbers for
      equality, are therefore stated on integer pixels, and [Binary64]
      holds the same arithmetic in IEEE 754 binary64, where it is
      evaluated on fractional inputs.
    - A JavaScript number that holds a step counter or a percentage is an
      [Index]: an integer or [NaN] (the remainder by zero).  Printing and
      reading such a number agree with JavaScript on the safe integers
      ([Spec.safeInteger], up to [2^53] in absolute value).
    - A string is a sequence of code units below 256.
    - React state is passed explicitly: a handler is a function from the
      state of the render it was created in to the state after its queued
      updates have been applied.
    - The host settings object is a finite map from strings to strings. *)

From Stdlib Require Import ZArith QArith Lia Lqa Ascii String DecimalString DecimalNat.
From Stdlib Require Import SpecFloat.
From stdpp Require Import base option strings list gmap.

Local Open Scope string_scope.

(** ** JavaScript values *)

Module JS.

(** Pixel coordinates: an exact rational, or [NaN]. *)
Inductive Number : Type :=
| Num (q : Q)
| NaN.

(** [a + b], without rounding: the value JavaScript computes when the
    operands are integer pixels, not when they are fractions (see
    [Binary64.add]). *)
Definition add (a b : Number) : Number :=
  match a, b with
  | Num p, Num q => Num (p + q)
  | _, _ => NaN
  end.

(** [a - b], without rounding (see [add]). *)
Definition sub (a b : Number) : Number :=
  match a, b with
  | Num p, Num q => Num (p - q)
  | _, _ => NaN
  end.

(** [a * b] *)
Definition mul (a b : Number) : Number :=
  match a, b with
  | Num p, Num q => Num (p * q)
  | _, _ => NaN
  end.

(** [Math.max(a, b)]: [NaN] as soon as one argument is [NaN]. *)
Definition max (a b : Number) : Number :=
  match a, b with
  | Num p, Num q => Num (if Qle_bool p q then q else p)
  | _, _ => NaN
  end.

(** [n || 0]: [0] and [NaN] are falsy. *)
Definition orZero (n : Number) : Number :=
  match n with
  | Num q => if Qeq_bool q 0 then Num 0 else Num q
  | NaN => Num 0
  end.

(** Two numbers denote the same value. *)
Definition Number_eq (a b : Number) : Prop :=
  match a, b with
  | Num p, Num q => (p == q)%Q
  | NaN, NaN => True
  | _, _ => False
  end.

Definition Number_eqb (a b : Number) : bool :=
  match a, b with
  | Num p, Num q => Qeq_bool p q
  | NaN, NaN => true
  | _, _ => false
  end.

Definition isNum (a : Number) : bool :=
  match a with Num _ => true | NaN => false end.

(** Step counters. *)
Inductive Index : Type :=
| Idx (z : Z)
| IdxNaN.

(** [i + k] for an integer constant [k]. *)
Definition iadd (i : Index) (k : Z) : Index :=
  match i with
  | Idx z => Idx (z + k)
  | IdxNaN => IdxNaN
  end.

(** [i % n] where [n] is an array length: the remainder takes the sign of
    the dividend, and the remainder by zero is [NaN]. *)
Definition irem (i : Index) (n : nat) : Index :=
  match i, n with
  | Idx z, S _ => Idx (Z.rem z (Z.of_nat n))
  | _, _ => IdxNaN
  end.

(** [items[i]]: defined for an integer index inside the array only. *)
Definition at_index {A : Type} (items : list A) (i : Index) : option A :=
  match i with
  | Idx z => if (0 <=? z)%Z then items !! Z.to_nat z else None
  | IdxNaN => None
  end.

(** [v || d] for a setting [v] that is a string or [undefined]: the empty
    string is falsy. *)
Definition orDefault (v : option string) (d : string) : string :=
  match v with
  | Some (String c s) => String c s
  | _ => d
  end.

(** Truthiness of a setting. *)
Definition truthy (v : option string) : bool :=
  match v with
  | Some (String _ _) => true
  | _ => false
  end.

(** [n.toString()] for an array length or loop counter, and the conversion
    a template literal applies to it. *)
Definition toString (n : nat) : string :=
  NilEmpty.string_of_uint (Nat.to_uint n).

(** [z.toString()] for an integer: the decimal digits.  JavaScript prints
    these for a safe integer; from [1e21] on it prints an exponent form
    instead, and between the two it prints the shortest digits that read
    back as the same double. *)
Definition Z_toString (z : Z) : string :=
  if (z <? 0)%Z then String "-" (toString (Z.to_nat (- z)))
  else toString (Z.to_nat z).

(** The white space [parseInt] skips, among the code units below 256:
    tab, the line terminators, vertical tab, form feed, space and the
    no-break space. *)
Definition is_whitespace (c : ascii) : bool :=
  let n := nat_of_ascii c in
  (n =? 32)%nat || ((9 <=? n)%nat && (n <=? 13)%nat) || (n =? 160)%nat.

Fixpoint skip_whitespace (s : string) : string :=
  match s with
  | String c s' => if is_whitespace c then skip_whitespace s' else s
  | EmptyString => s
  end.

Definition digit_value (c : ascii) : option Z :=
  let n := nat_of_ascii c in
  if ((48 <=? n)%nat && (n <=? 57)%nat) then Some (Z.of_nat (n - 48)) else None.

(** Strings made of decimal digits only. *)
Fixpoint all_digits (s : string) : Prop :=
  match s with
  | EmptyString => True
  | String c s' => is_Some (digit_value c) /\ all_digits s'
  end.

(** The value of the longest prefix of decimal digits; [acc] is [None]
    until a digit has been read. *)
Fixpoint parse_digits (s : string) (acc : option Z) : option Z :=
  match s with
  | String c s' =>
      match digit_value c with
      | Some d => parse_digits s' (Some (10 * default 0%Z acc + d)%Z)
      | None => acc
      end
  | EmptyString => acc
  end.

(** [parseInt(s, 10)]: leading white space is skipped, one sign is
    accepted, the longest prefix of digits is read, and no digit at all
    gives [NaN].  The result is the integer the digits denote, which is
    the number JavaScript returns when that integer is a safe integer
    (beyond [2^53] JavaScript rounds it to a double). *)
Definition parseInt (s : string) : Index :=
  let s1 := skip_whitespace s in
  let '(negative, s2) :=
    match s1 with
    | String "-" r => (true, r)
    | String "+" r => (false, r)
    | _ => (false, s1)
    end in
  match parse_digits s2 None with
  | Some v => Idx (if negative then - v else v)
  | None => IdxNaN
  end.

(** Number of iterations of [for (let i = 0; i < rowCount; i++)]. *)
Definition iterations (rowCount : Index) : nat :=
  match rowCount with
  | Idx z => Z.to_nat z
  | IdxNaN => 0
  end.

(** The loop itself: [body i] is run for [i], [i+1], ... [count] times. *)
Fixpoint for_loop {A : Type} (body : nat -> A -> A) (i count : nat) (acc : A) : A :=
  match count with
  | O => acc
  | S count' => for_loop body (S i) count' (body i acc)
  end.

End JS.

(** ** The arithmetic of the layout in IEEE 754 binary64

    JavaScript numbers are doubles.  This module evaluates the sums and
    differences of [updateBoxPositions] with the rounding of binary64
    (round to nearest, ties to even), for coordinates that are not
    integers. *)

Module Binary64.

Definition double : Type := spec_float.

Definition prec : Z := 53.
Definition emax : Z := 1024.

(** The double of an integer. *)
Definition ofZ (z : Z) : double := binary_normalize prec emax z 0 false.

(** The double a decimal literal denotes, the literal being the fraction
    [numerator / denominator] of two integers below [2^53]: the quotient
    rounded once. *)
Definition literal (numerator denominator : Z) : double :=
  SFdiv prec emax (ofZ numerator) (ofZ denominator).

(** [a + b] *)
Definition add (a b : double) : double := SFadd prec emax a b.

(** [a - b] *)
Definition sub (a b : double) : double := SFsub prec emax a b.

(** [a === b] on two numbers. *)
Definition eqb (a b : double) : bool := SFeqb a b.

(** [const verticalOverlap = 0.1] *)
Definition verticalOverlap : double := literal 1 10.

(** The numeric entries of the object literal [positions]. *)
Record Extents : Type := {
  top_height : double;
  left_top : double;
  left_width : double;
  left_height : double;
  right_top : double;
  right_left : double;
  right_width : double;
  right_height : double;
  bottom_top : double;
  bottom_height : double
}.

(** The numbers [updateBoxPositions] computes from the details
    [{x, y, width, height}] of the target and the extension position
    [{ext_x, ext_y, ext_width, ext_height}]. *)
Definition maskExtents (x y width height ext_x ext_y ext_width ext_height : double)
    : Extents :=
  let adjustedX := sub x ext_x in
  let adjustedY := sub y ext_y in
  {| top_height := adjustedY;
     left_top := adjustedY;
     left_width := adjustedX;
     left_height := add height verticalOverlap;
     right_top := adjustedY;
     right_left := add adjustedX width;
     right_width := sub ext_width (add adjustedX width);
     right_height := add height verticalOverlap;
     bottom_top := add adjustedY height;
     bottom_height := sub ext_height (add adjustedY height) |}.

End Binary64.

(** ** The settings encoding shared by the two components *)

Module Settings.

Import JS.

(** The settings keys [`tour${i}_object`], [`tour${i}_text`] and
    [`tour${i}_position`]. *)
Definition tourKey (i : nat) (suffix : string) : string :=
  "tour" ++ toString i ++ suffix.

(** [parseInt(settings.rowCount || "0", 10)] *)
Definition rowCountOf (settings : gmap string string) : Index :=
  parseInt (orDefault (settings !! "rowCount") "0").

End Settings.

(** ** The player: [src/App.jsx] *)

Module App.

Import JS Settings.

(** An object of the dashboard, as the host lists it. *)
Record DashboardObject : Type := {
  obj_id : string;
  obj_name : string;
  obj_x : Number;
  obj_y : Number;
  obj_width : Number;
  obj_height : Number
}.

(** An entry of [objectDetailsMap]. *)
Record ObjectDetails : Type := {
  d_name : string;
  d_x : Number;
  d_y : Number;
  d_width : Number;
  d_height : Number
}.

(** [objectDetailsMap[objectId] || {}]: the entry, or the empty object. *)
Inductive Details : Type :=
| Known (d : ObjectDetails)
| EmptyObject.

(** Reading [x], [y], [width] or [height] off the details: a property the
    empty object lacks is [undefined], which every arithmetic operator of
    [updateBoxPositions] turns into [NaN]. *)
Definition prop (f : ObjectDetails -> Number) (d : Details) : Number :=
  match d with
  | Known o => f o
  | EmptyObject => NaN
  end.

Record TourItem : Type := {
  objectId : string;
  text : string;
  position : string;
  details : Details
}.

(** [extensionPosition] once it is known. *)
Record Rect : Type := {
  ext_x : Number;
  ext_y : Number;
  ext_width : Number;
  ext_height : Number
}.

(** A width is a number of pixels or a CSS string. *)
Inductive CssSize : Type :=
| Px (n : Number)
| Css (s : string).

(** One grey box. *)
Record Box : Type := {
  box_top : Number;
  box_left : Number;
  box_width : CssSize;
  box_height : Number
}.

(** [positions]: the four grey boxes. *)
Record Positions : Type := {
  pos_top : Box;
  pos_left : Box;
  pos_right : Box;
  pos_bottom : Box
}.

(** [textBoxPosition]. *)
Record TextBox : Type := {
  tb_width : Number;
  tb_height : string;
  tb_top : Number;
  tb_left : Number
}.

(** [settings["transparency"] || 70]: the stored string or the number. *)
Inductive Transparency : Type :=
| TransparencyStr (s : string)
| TransparencyNum (n : Z).

(** The component state, one field per [useState]; [None] stands for
    [null] and, for [boxPositions], for the empty object. *)
Record AppState : Type := {
  tourItems : list TourItem;
  currentStep : Index;
  boxPositions : option Positions;
  extensionPosition : option Rect;
  textPosition : option TextBox;
  textVisible : bool;
  selectedFont : string;
  backgroundColor : string;
  backgroundTransparency : Transparency
}.

Definition initialState : AppState := {|
  tourItems := [];
  currentStep := Idx 0;
  boxPositions := None;
  extensionPosition := None;
  textPosition := None;
  textVisible := false;
  selectedFont := "Roboto";
  backgroundColor := "#000000";
  backgroundTransparency := TransparencyNum 70
|}.

Definition setTourItems (v : list TourItem) (s : AppState) : AppState :=
  {| tourItems := v; currentStep := currentStep s;
     boxPositions := boxPositions s; extensionPosition := extensionPosition s;
     textPosition := textPosition s; textVisible := textVisible s;
     selectedFont := selectedFont s; backgroundColor := backgroundColor s;
     backgroundTransparency := backgroundTransparency s |}.

Definition setCurrentStep (v : Index) (s : AppState) : AppState :=
  {| tourItems := tourItems s; currentStep := v;
     boxPositions := boxPositions s; extensionPosition := extensionPosition s;
     textPosition := textPosition s; textVisible := textVisible s;
     selectedFont := selectedFont s; backgroundColor := backgroundColor s;
     backgroundTransparency := backgroundTransparency s |}.

Definition setBoxPositions (v : Positions) (s : AppState) : AppState :=
  {| tourItems := tourItems s; currentStep := currentStep s;
     boxPositions := Some v; extensionPosition := extensionPosition s;
     textPosition := textPosition s; textVisible := textVisible s;
     selectedFont := selectedFont s; backgroundColor := backgroundColor s;
     backgroundTransparency := backgroundTransparency s |}.

Definition setExtensionPosition (v : Rect) (s : AppState) : AppState :=
  {| tourItems := tourItems s; currentStep := currentStep s;
     boxPositions := boxPositions s; extensionPosition := Some v;
     textPosition := textPosition s; textVisible := textVisible s;
     selectedFont := selectedFont s; backgroundColor := backgroundColor s;
     backgroundTransparency := backgroundTransparency s |}.

Definition setTextPosition (v : TextBox) (s : AppState) : AppState :=
  {| tourItems := tourItems s; currentStep := currentStep s;
     boxPositions := boxPositions s; extensionPosition := extensionPosition s;
     textPosition := Some v; textVisible := textVisible s;
     selectedFont := selectedFont s; backgroundColor := backgroundColor s;
     backgroundTransparency := backgroundTransparency s |}.

Definition setTextVisible (v : bool) (s : AppState) : AppState :=
  {| tourItems := tourItems s; currentStep := currentStep s;
     boxPositions := boxPositions s; extensionPosition := extensionPosition s;
     textPosition := textPosition s; textVisible := v;
     selectedFont := selectedFont s; backgroundColor := backgroundColor s;
     backgroundTransparency := backgroundTransparency s |}.

Definition setTheme (font color : string) (t : Transparency) (s : AppState) : AppState :=
  {| tourItems := tourItems s; currentStep := currentStep s;
     boxPositions := boxPositions s; extensionPosition := extensionPosition s;
     textPosition := textPosition s; textVisible := textVisible s;
     selectedFont := font; backgroundColor := color;
     backgroundTransparency := t |}.

(** *** [refreshTourItems] *)

(** [obj.name || `Object ${obj.id}`] *)
Definition detailsOf (obj : DashboardObject) : ObjectDetails := {|
  d_name := orDefault (Some (obj_name obj)) ("Object " ++ obj_id obj);
  d_x := orZero (obj_x obj);
  d_y := orZero (obj_y obj);
  d_width := orZero (obj_width obj);
  d_height := orZero (obj_height obj)
|}.

(** [dashboard.objects.reduce(...)]: a later object with the same id
    overwrites an earlier one. *)
Definition objectDetailsMap (objects : list DashboardObject) : gmap string ObjectDetails :=
  fold_left (fun acc obj => <[obj_id obj := detailsOf obj]> acc) objects ∅.

(** The body of the loop: the item is pushed when both the object id and
    the text are truthy. *)
Definition pushTourItem (details : gmap string ObjectDetails)
    (settings : gmap string string) (i : nat) (updatedTourItems : list TourItem)
    : list TourItem :=
  let objectId := settings !! tourKey i "_object" in
  let text := settings !! tourKey i "_text" in
  let position := orDefault (settings !! tourKey i "_position") "right" in
  if truthy objectId && truthy text then
    updatedTourItems ++
      [ {| objectId := default "" objectId;
           text := default "" text;
           position := position;
           details := from_option Known EmptyObject
                        (details !! default "" objectId) |} ]
  else updatedTourItems.

Definition readTourItems (objects : list DashboardObject)
    (settings : gmap string string) : list TourItem :=
  for_loop (pushTourItem (objectDetailsMap objects) settings)
    0 (iterations (rowCountOf settings)) [].

Definition refreshTourItems (objects : list DashboardObject)
    (settings : gmap string string) (s : AppState) : AppState :=
  let font := orDefault (settings !! "selectedFont") "Roboto" in
  let bgColor := orDefault (settings !! "backgroundColor") "#000000" in
  let bgTransparency :=
    if truthy (settings !! "transparency")
    then TransparencyStr (default "" (settings !! "transparency"))
    else TransparencyNum 70 in
  setCurrentStep (Idx 0)
    (setTourItems (readTourItems objects settings)
       (setTheme font bgColor bgTransparency s)).

(** *** [updateBoxPositions] *)

Definition verticalOverlap : Number := Num 0.1.
Definition maxTextBoxWidth : Number := Num 300.
Definition textPadding : Number := Num 10.

(** The four grey boxes (the object literal [positions]); the overlap is
    a parameter here so that its influence can be stated, the code passes
    [verticalOverlap]. *)
Definition maskPositions (overlap : Number) (ext : Rect)
    (adjustedX adjustedY width height : Number) : Positions := {|
  pos_top := {|
    box_top := Num 0;
    box_left := Num 0;
    box_width := Css "100%";
    box_height := adjustedY |};
  pos_left := {|
    box_top := adjustedY;
    box_left := Num 0;
    box_width := Px adjustedX;
    box_height := add height overlap |};
  pos_right := {|
    box_top := adjustedY;
    box_left := add adjustedX width;
    box_width := Px (sub (ext_width ext) (add adjustedX width));
    box_height := add height overlap |};
  pos_bottom := {|
    box_top := add adjustedY height;
    box_left := Num 0;
    box_width := Css "100%";
    box_height := sub (ext_height ext) (add adjustedY height) |}
|}.

(** The [switch (item.position)] that places the text box. *)
Definition textBoxPosition (position : string)
    (adjustedX adjustedY width height : Number) : TextBox :=
  if String.eqb position "right" then
    {| tb_width := maxTextBoxWidth; tb_height := "auto";
       tb_top := adjustedY;
       tb_left := add (add adjustedX width) textPadding |}
  else if String.eqb position "left" then
    {| tb_width := maxTextBoxWidth; tb_height := "auto";
       tb_top := adjustedY;
       tb_left := max (sub (sub adjustedX maxTextBoxWidth)
                         (mul textPadding (Num 3))) (Num 0) |}
  else if String.eqb position "top" then
    {| tb_width := maxTextBoxWidth; tb_height := "auto";
       tb_top := max (sub height (mul textPadding (Num 3))) (Num 0);
       tb_left := adjustedX |}
  else
    {| tb_width := maxTextBoxWidth; tb_height := "auto";
       tb_top := add (add adjustedY height) textPadding;
       tb_left := adjustedX |}.

(** The guard [item?.details && extensionPosition]: [details] is always
    an object, hence truthy, so the guard fails exactly when the index
    selects no item or the extension position is still [null]. *)
Definition updateBoxPositions (stepIndex : Index) (items : list TourItem)
    (s : AppState) : AppState :=
  match at_index items stepIndex, extensionPosition s with
  | Some item, Some ext =>
      let x := prop d_x (details item) in
      let y := prop d_y (details item) in
      let width := prop d_width (details item) in
      let height := prop d_height (details item) in
      let adjustedX := sub x (ext_x ext) in
      let adjustedY := sub y (ext_y ext) in
      setTextVisible true
        (setTextPosition
           (textBoxPosition (position item) adjustedX adjustedY width height)
           (setBoxPositions
              (maskPositions verticalOverlap ext adjustedX adjustedY width height)
              s))
  | _, _ => s
  end.

(** *** Navigation *)

Definition handleNext (s : AppState) : AppState :=
  let nextStep := irem (iadd (currentStep s) 1) (length (tourItems s)) in
  updateBoxPositions nextStep (tourItems s)
    (setCurrentStep nextStep (setTextVisible false s)).

Definition handlePrevious (s : AppState) : AppState :=
  let n := length (tourItems s) in
  let prevStep := irem (iadd (iadd (currentStep s) (-1)) (Z.of_nat n)) n in
  updateBoxPositions prevStep (tourItems s)
    (setCurrentStep prevStep (setTextVisible false s)).

(** The [onClick] of the indicator circle number [index]. *)
Definition handleStepClick (index : nat) (s : AppState) : AppState :=
  updateBoxPositions (Idx (Z.of_nat index)) (tourItems s)
    (setCurrentStep (Idx (Z.of_nat index)) (setTextVisible false s)).

(** *** Effects and mounting *)

(** The effect on [[tourItems, extensionPosition]]. *)
Definition layoutEffect (s : AppState) : AppState :=
  if (0 <? length (tourItems s))%nat && bool_decide (is_Some (extensionPosition s))
  then updateBoxPositions (Idx 0) (tourItems s) s
  else s.

(** [refreshTourItems] followed by the effect its state change triggers. *)
Definition load (objects : list DashboardObject) (settings : gmap string string)
    (s : AppState) : AppState :=
  layoutEffect (refreshTourItems objects settings s).

(** [dashboard.objects.find((obj) => obj.name === "Tableau Tour")] *)
Definition findExtensionObject (objects : list DashboardObject) : option DashboardObject :=
  List.find (fun obj => String.eqb (obj_name obj) "Tableau Tour") objects.

(** [initializeTableau] once the host API has initialised, with the
    effect that follows. *)
Definition mount (objects : list DashboardObject) (settings : gmap string string)
    : AppState :=
  let s :=
    match findExtensionObject objects with
    | Some extensionObject =>
        setExtensionPosition
          {| ext_x := obj_x extensionObject; ext_y := obj_y extensionObject;
             ext_width := obj_width extensionObject;
             ext_height := obj_height extensionObject |}
          initialState
    | None => initialState
    end in
  load objects settings s.

(** *** Rendering *)

(** The element tree the component returns: the outer frame (width and
    height, in pixels once the extension position is known), inside it
    the grey boxes in key order, one indicator per tour item, and the
    text box with its text. *)
Record View : Type := {
  v_frame : CssSize * CssSize;
  v_boxes : list (string * Box);
  v_indicators : nat;
  v_textBox : option (TextBox * string)
}.

(** The tree of a render whose calls of [alpha] all return; the colour of
    the boxes is not part of it.  [paint] below is the render function
    with that call. *)
Definition render (s : AppState) : View := {|
  v_frame :=
    match extensionPosition s with
    | Some ext => (Px (ext_width ext), Px (ext_height ext))
    | None => (Css "100vw", Css "100vh")
    end;
  v_boxes :=
    match boxPositions s with
    | Some p => [("top", pos_top p); ("left", pos_left p);
                 ("right", pos_right p); ("bottom", pos_bottom p)]
    | None => []
    end;
  v_indicators := length (tourItems s);
  v_textBox :=
    match at_index (tourItems s) (currentStep s), textPosition s with
    | Some item, Some tp => if textVisible s then Some (tp, text item) else None
    | _, _ => None
    end
|}.

(** The render function with its call of the library function
    [alpha(backgroundColor, backgroundTransparency / 100)], which is made
    once for every key of [boxPositions] and which throws for a colour it
    cannot parse.  The library is not part of the sources, so [alpha] is a
    parameter: [None] stands for a call that throws.  Then the render
    throws and nothing is painted, and no call is made while
    [boxPositions] has no key. *)
Definition paint (alpha : string -> Transparency -> option string)
    (s : AppState) : option View :=
  match boxPositions s with
  | None => Some (render s)
  | Some _ =>
      match alpha (backgroundColor s) (backgroundTransparency s) with
      | Some _ => Some (render s)
      | None => None
      end
  end.

(** The states of the specification's player: [Idle] when no step is
    loaded, [Showing i] when step [i] is current. *)
Inductive PlayerState : Type :=
| Idle
| Showing (i : Index).

Definition playerState (s : AppState) : PlayerState :=
  match tourItems s with
  | [] => Idle
  | _ :: _ => Showing (currentStep s)
  end.

(** States reachable, with one dashboard and one set of settings, after
    the load that mounts the player and any sequence of navigation
    actions; an indicator exists, and can be clicked, for every index of
    [tourItems] only.  The configuration dialog is never closed here:
    [live] below adds the reload that follows its closing. *)
Inductive reachable (objects : list DashboardObject)
    (settings : gmap string string) : AppState -> Prop :=
| reach_load : reachable objects settings (mount objects settings)
| reach_next s :
    reachable objects settings s -> reachable objects settings (handleNext s)
| reach_previous s :
    reachable objects settings s -> reachable objects settings (handlePrevious s)
| reach_jump s k :
    reachable objects settings s -> (k < length (tourItems s))%nat ->
    reachable objects settings (handleStepClick k s).

(** *** The step indicators *)

(** [currentStep === index] for the index of an indicator. *)
Definition isStep (current : Index) (index : nat) : bool :=
  match current with
  | Idx z => (z =? Z.of_nat index)%Z
  | IdxNaN => false
  end.

(** [tourItems.map((_, index) => ...)]: one circle per item, drawn active
    (wide and white) when its index is the current step. *)
Definition indicators (s : AppState) : list bool :=
  imap (fun index _ => isStep (currentStep s) index) (tourItems s).

(** *** The font effect *)

(** [selectedFont.replace(/ /g, "+")] *)
Fixpoint replaceSpaces (font : string) : string :=
  match font with
  | EmptyString => EmptyString
  | String c rest =>
      String (if Ascii.eqb c " " then "+"%char else c) (replaceSpaces rest)
  end.

(** The [href] of the stylesheet link the effect on [selectedFont]
    appends to the document head; no link for an empty font name. *)
Definition fontHref (font : string) : option string :=
  match font with
  | EmptyString => None
  | String _ _ =>
      Some ("https://fonts.googleapis.com/css2?family=" ++ replaceSpaces font
            ++ ":wght@400;700&display=swap")
  end.

(** *** The life of the component *)

(** States of a mounted player: after [initializeTableau], every arrow or
    indicator click, and every closing of the configuration dialog, which
    calls [refreshTourItems] on the settings and dashboard objects of
    that moment. *)
Inductive live : AppState -> Prop :=
| live_mount objects settings : live (mount objects settings)
| live_next s : live s -> live (handleNext s)
| live_previous s : live s -> live (handlePrevious s)
| live_jump s k :
    live s -> (k < length (tourItems s))%nat -> live (handleStepClick k s)
| live_configure s objects settings : live s -> live (load objects settings s).

End App.

(** ** The authoring dialog: [src/Configure.jsx] *)

Module Configure.

Import JS Settings.

Record Row : Type := {
  id : nat;
  object : string;
  text : string;
  position : string
}.

(** The [transparency] state: a number, or the empty string while the
    input field is empty. *)
Inductive TransparencyInput : Type :=
| TNumber (n : Index)
| TEmptyString.

(** [transparency.toString()]: the decimal digits of a number that is a
    safe integer (see [Z_toString]). *)
Definition transparencyToString (t : TransparencyInput) : string :=
  match t with
  | TNumber (Idx z) => Z_toString z
  | TNumber IdxNaN => "NaN"
  | TEmptyString => ""
  end.

Record ConfigureState : Type := {
  rows : list Row;
  selectedFont : string;
  backgroundColor : string;
  transparency : TransparencyInput
}.

(** The tour step a row stands for: target, text and anchor side. *)
Definition stepOf (row : Row) : string * string * string :=
  (object row, text row, position row).

(** *** Row handlers *)

Definition handleAddRow (prev : list Row) : list Row :=
  prev ++ [ {| id := length prev; object := ""; text := ""; position := "right" |} ].

(** [prev.filter((row) => row.id !== id)] *)
Definition handleDeleteRow (i : nat) (prev : list Row) : list Row :=
  filter (fun row => id row ≠ i) prev.

(** The three [onChange] handlers: [prev.map((r) => r.id === row.id ? {...r, field: value} : r)] *)
Definition handleObjectChange (i : nat) (value : string) (prev : list Row) : list Row :=
  (fun r => if decide (id r = i)
            then {| id := id r; object := value; text := text r; position := position r |}
            else r) <$> prev.

Definition handleTextChange (i : nat) (value : string) (prev : list Row) : list Row :=
  (fun r => if decide (id r = i)
            then {| id := id r; object := object r; text := value; position := position r |}
            else r) <$> prev.

Definition handlePositionChange (i : nat) (value : string) (prev : list Row) : list Row :=
  (fun r => if decide (id r = i)
            then {| id := id r; object := object r; text := text r; position := value |}
            else r) <$> prev.

(** The destructuring swap [[a[i], a[j]] = [a[j], a[i]]] on a copy of the
    rows.  Both reads must hit a row: otherwise [undefined] is written
    into the array (or a property is set outside it), which leaves the
    type of row lists; the result is [None] then.  The arrows of the
    dialog are rendered once per row and pass the index of their row. *)
Definition swapRows (i j : Z) (rows : list Row) : option (list Row) :=
  if ((0 <=? i)%Z && (0 <=? j)%Z)%bool then
    match rows !! Z.to_nat i, rows !! Z.to_nat j with
    | Some ri, Some rj => Some (<[Z.to_nat j := ri]> (<[Z.to_nat i := rj]> rows))
    | _, _ => None
    end
  else None.

Definition handleMoveUp (index : Z) (rows : list Row) : option (list Row) :=
  if (index =? 0)%Z then Some rows
  else swapRows (index - 1) index rows.

Definition handleMoveDown (index : Z) (rows : list Row) : option (list Row) :=
  if (index =? Z.of_nat (length rows) - 1)%Z then Some rows
  else swapRows index (index + 1) rows.

(** *** [handleSave] *)

(** [Object.keys(existingSettings).forEach((key) => settings.erase(key))].
    The settings object belongs to the host, whose library is not part of
    the sources: [erase(key)] is taken to remove the key whatever its
    value, and [set] to bind it. *)
Definition eraseAll (existing : gmap string string) : gmap string string :=
  fold_left (fun m key => delete key m) (map_to_list existing).*1 existing.

(** [rows.forEach((row, index) => ...)]: three settings per row. *)
Fixpoint saveRows (rows : list Row) (index : nat) (settings : gmap string string)
    : gmap string string :=
  match rows with
  | [] => settings
  | row :: rest =>
      saveRows rest (S index)
        (<[tourKey index "_position" := position row]>
           (<[tourKey index "_text" := text row]>
              (<[tourKey index "_object" := object row]> settings)))
  end.

(** The settings the host holds when [saveAsync] is called. *)
Definition handleSave (existingSettings : gmap string string) (s : ConfigureState)
    : gmap string string :=
  saveRows (rows s) 0
    (<["rowCount" := toString (length (rows s))]>
       (<["transparency" := transparencyToString (transparency s)]>
          (<["backgroundColor" := backgroundColor s]>
             (<["selectedFont" := selectedFont s]>
                (eraseAll existingSettings))))).

(** *** The load effect *)

Definition pushLoadedRow (settings : gmap string string) (i : nat)
    (loadedRows : list Row) : list Row :=
  loadedRows ++
    [ {| id := i;
         object := orDefault (settings !! tourKey i "_object") "";
         text := orDefault (settings !! tourKey i "_text") "";
         position := orDefault (settings !! tourKey i "_position") "right" |} ].

Definition loadRows (settings : gmap string string) : list Row :=
  for_loop (pushLoadedRow settings) 0 (iterations (rowCountOf settings)) [].

Definition loadSettings (settings : gmap string string) : ConfigureState := {|
  rows := loadRows settings;
  selectedFont := orDefault (settings !! "selectedFont") "Roboto";
  backgroundColor := orDefault (settings !! "backgroundColor") "#f9f9f9";
  transparency :=
    match settings !! "transparency" with
    | Some v => TNumber (parseInt v)
    | None => TNumber (Idx 70)
    end
|}.

(** *** The general settings *)

(** The state of the dialog before the load effect has run. *)
Definition initialState : ConfigureState := {|
  rows := [];
  selectedFont := "Roboto";
  backgroundColor := "#f9f9f9";
  transparency := TNumber (Idx 70)
|}.

(** [handleTransparencyChange]: the empty field is kept as the empty
    string; otherwise the value is taken when [parseInt] reads a number
    between 0 and 100 from it, and ignored when it does not. *)
Definition handleTransparencyChange (value : string) (transparency : TransparencyInput)
    : TransparencyInput :=
  match value with
  | EmptyString => TEmptyString
  | String _ _ =>
      match parseInt value with
      | Idx numericValue =>
          if ((0 <=? numericValue)%Z && (numericValue <=? 100)%Z)%bool
          then TNumber (Idx numericValue)
          else transparency
      | IdxNaN => transparency
      end
  end.

(** *** The store as a transition system *)

(** One action of the dialog on the rows.  The delete button and the
    input fields of a row pass the [id] of that row, the arrows pass its
    index. *)
Inductive storeStep : list Row -> list Row -> Prop :=
| step_add rows : storeStep rows (handleAddRow rows)
| step_delete rows row :
    row ∈ rows -> storeStep rows (handleDeleteRow (id row) rows)
| step_object rows row value :
    row ∈ rows -> storeStep rows (handleObjectChange (id row) value rows)
| step_text rows row value :
    row ∈ rows -> storeStep rows (handleTextChange (id row) value rows)
| step_position rows row value :
    row ∈ rows -> storeStep rows (handlePositionChange (id row) value rows)
| step_up rows index rows' :
    (0 <= index < Z.of_nat (length rows))%Z ->
    handleMoveUp index rows = Some rows' -> storeStep rows rows'
| step_down rows index rows' :
    (0 <= index < Z.of_nat (length rows))%Z ->
    handleMoveDown index rows = Some rows' -> storeStep rows rows'.

(** Row lists the dialog can hold after it loaded [settings]. *)
Inductive storeReachable (settings : gmap string string) : list Row -> Prop :=
| store_loaded : storeReachable settings (loadRows settings)
| store_step rows rows' :
    storeReachable settings rows -> storeStep rows rows' ->
    storeReachable settings rows'.

(** The actions other than the delete button. *)
Inductive editStep : list Row -> list Row -> Prop :=
| edit_add rows : editStep rows (handleAddRow rows)
| edit_object rows row value :
    row ∈ rows -> editStep rows (handleObjectChange (id row) value rows)
| edit_text rows row value :
    row ∈ rows -> editStep rows (handleTextChange (id row) value rows)
| edit_position rows row value :
    row ∈ rows -> editStep rows (handlePositionChange (id row) value rows)
| edit_up rows index rows' :
    (0 <= index < Z.of_nat (length rows))%Z ->
    handleMoveUp index rows = Some rows' -> editStep rows rows'
| edit_down rows index rows' :
    (0 <= index < Z.of_nat (length rows))%Z ->
    handleMoveDown index rows = Some rows' -> editStep rows rows'.

(** Row lists of a dialog in which no row has been deleted yet. *)
Inductive editReachable (settings : gmap string string) : list Row -> Prop :=
| edit_loaded : editReachable settings (loadRows settings)
| edit_step rows rows' :
    editReachable settings rows -> editStep rows rows' ->
    editReachable settings rows'.

End Configure.

(** ** The vocabulary of the specification *)

Module Spec.

Import JS Settings.

(** A target rectangle [{x, y, width, height}] with finite coordinates,
    as the details of a resolved object. *)
Definition target (name : string) (x y width height : Q) : App.ObjectDetails := {|
  App.d_name := name;
  App.d_x := Num x; App.d_y := Num y;
  App.d_width := Num width; App.d_height := Num height
|}.

(** A container rectangle [{x, y, width, height}] with finite
    coordinates, as the extension position. *)
Definition container (x y width height : Q) : App.Rect := {|
  App.ext_x := Num x; App.ext_y := Num y;
  App.ext_width := Num width; App.ext_height := Num height
|}.

(** The four anchor sides of a tour step. *)
Definition anchors : list string := ["left"; "right"; "top"; "bottom"].

(** Step [i] of the settings is complete when its object id and its text
    are both present and non-empty. *)
Definition complete (settings : gmap string string) (i : nat) : bool :=
  truthy (settings !! tourKey i "_object") && truthy (settings !! tourKey i "_text").

(** The indices below [n] whose step is complete, in ascending order. *)
Definition playedIndices (settings : gmap string string) (n : nat) : list nat :=
  List.filter (complete settings) (seq 0 n).

(** The tour item that stands for step [i] of the settings. *)
Definition itemOf (objects : list App.DashboardObject)
    (settings : gmap string string) (i : nat) : App.TourItem := {|
  App.objectId := default "" (settings !! tourKey i "_object");
  App.text := default "" (settings !! tourKey i "_text");
  App.position := orDefault (settings !! tourKey i "_position") "right";
  App.details :=
    from_option App.Known App.EmptyObject
      (App.objectDetailsMap objects
         !! default "" (settings !! tourKey i "_object"))
|}.

(** The layouts of a state: what [updateBoxPositions] may write. *)
Definition layouts (s : App.AppState) : option App.Positions * option App.TextBox :=
  (App.boxPositions s, App.textPosition s).

(** The index invariant of the playback state. *)
Definition indexInRange (s : App.AppState) : Prop :=
  exists i : Z,
    App.currentStep s = Idx i /\
    (0 <= i < Z.of_nat (length (App.tourItems s)))%Z.

(** The boxes and the text box [updateBoxPositions] computes for an item
    inside a known extension position. *)
Definition layoutOf (ext : App.Rect) (item : App.TourItem)
    : App.Positions * App.TextBox :=
  let adjustedX := sub (App.prop App.d_x (App.details item)) (App.ext_x ext) in
  let adjustedY := sub (App.prop App.d_y (App.details item)) (App.ext_y ext) in
  let width := App.prop App.d_width (App.details item) in
  let height := App.prop App.d_height (App.details item) in
  (App.maskPositions App.verticalOverlap ext adjustedX adjustedY width height,
   App.textBoxPosition (App.position item) adjustedX adjustedY width height).

(** The state shows [item]: its boxes and its text box are laid out and
    the text box is visible. *)
Definition shows (s : App.AppState) (ext : App.Rect) (item : App.TourItem) : Prop :=
  App.boxPositions s = Some (layoutOf ext item).1 /\
  App.textPosition s = Some (layoutOf ext item).2 /\
  App.textVisible s = true.

(** The common body of the two arrow handlers and of the indicator
    click: hide the text box, make [idx] the current step, lay it out. *)
Definition goTo (idx : Index) (s : App.AppState) : App.AppState :=
  App.updateBoxPositions idx (App.tourItems s)
    (App.setCurrentStep idx (App.setTextVisible false s)).

(** A transparency the input field accepts: empty, or an integer
    percentage. *)
Definition percentage (t : Configure.TransparencyInput) : Prop :=
  t = Configure.TEmptyString \/
  exists n : Z, t = Configure.TNumber (Idx n) /\ (0 <= n <= 100)%Z.

(** A row the player will show: its object and its text are not empty. *)
Definition playable (row : Configure.Row) : bool :=
  negb (String.eqb (Configure.object row) "")
  && negb (String.eqb (Configure.text row) "").

(** The string holds no space. *)
Definition spaceless (s : string) : Prop :=
  forall a b : string, s <> a ++ String " " b.

(** A number, as opposed to [NaN]. *)
Definition finite (n : Number) : Prop := exists q : Q, n = Num q.

(** A target and a container whose coordinates are integers. *)
Definition pixelTarget (name : string) (x y width height : Z) : App.ObjectDetails :=
  target name (inject_Z x) (inject_Z y) (inject_Z width) (inject_Z height).

Definition pixelContainer (x y width height : Z) : App.Rect :=
  container (inject_Z x) (inject_Z y) (inject_Z width) (inject_Z height).

(** An integer pixel coordinate, as the host reports them.  Sums and
    differences of a few of them stay far below [2^53], so that the
    doubles of the code compute them without rounding. *)
Definition pixel (z : Z) : Prop := (Z.abs z <= 2 ^ 31)%Z.

(** An integer JavaScript prints with all its decimal digits and reads
    back unchanged. *)
Definition safeInteger (z : Z) : Prop := (Z.abs z <= 2 ^ 53)%Z.

(** A transparency whose number, if it is one, is a safe integer. *)
Definition safeTransparency (t : Configure.TransparencyInput) : Prop :=
  forall z : Z, t = Configure.TNumber (Idx z) -> safeInteger z.

End Spec.

(** ** Concrete inputs used by the properties *)

Module Scenario.

Import JS.

(** The dashboard of the concrete scenario: the extension itself at
    [{x:0, y:0, width:800, height:600}] and one worksheet at
    [{x:100, y:100, width:200, height:50}]. *)
Definition dashboard : list App.DashboardObject :=
  [ {| App.obj_id := "1"; App.obj_name := "Tableau Tour";
       App.obj_x := Num 0; App.obj_y := Num 0;
       App.obj_width := Num 800; App.obj_height := Num 600 |};
    {| App.obj_id := "7"; App.obj_name := "Sales";
       App.obj_x := Num 100; App.obj_y := Num 100;
       App.obj_width := Num 200; App.obj_height := Num 50 |} ].

(** One step on the worksheet, anchored to the right. *)
Definition oneStep : gmap string string :=
  <["rowCount" := "1"]>
    (<["tour0_object" := "7"]>
       (<["tour0_text" := "Sales by region"]>
          (<["tour0_position" := "right"]> ∅))).

Definition salesItem : App.TourItem := {|
  App.objectId := "7";
  App.text := "Sales by region";
  App.position := "right";
  App.details := App.Known (Spec.target "Sales" 100 100 200 50)
|}.



(** A dashboard on which no object is named ["Tableau Tour"]. *)
Definition dashboardWithoutExtension : list App.DashboardObject :=
  [ {| App.obj_id := "7"; App.obj_name := "Sales";
       App.obj_x := Num 100; App.obj_y := Num 100;
       App.obj_width := Num 200; App.obj_height := Num 50 |} ].

(** Three steps, the second one on an object the dashboard does not
    hold. *)
Definition threeSteps : gmap string string :=
  <["rowCount" := "3"]>
    (<["tour0_object" := "7"]>
       (<["tour0_text" := "Sales by region"]>
          (<["tour0_position" := "right"]>
             (<["tour1_object" := "42"]>
                (<["tour1_text" := "A sheet that was removed"]>
                   (<["tour1_position" := "left"]>
                      (<["tour2_object" := "1"]>
                         (<["tour2_text" := "The tour itself"]>
                            (<["tour2_position" := "bottom"]> ∅))))))))).

(** Two rows as the dialog saves them. *)
Definition twoRows : gmap string string :=
  <["rowCount" := "2"]>
    (<["tour0_object" := "7"]>
       (<["tour0_text" := "Sales by region"]>
          (<["tour0_position" := "right"]>
             (<["tour1_object" := "1"]>
                (<["tour1_text" := "The tour itself"]>
                   (<["tour1_position" := "bottom"]> ∅)))))).

(** Three rows in the dialog. *)
Definition threeRows : list Configure.Row :=
  [ {| Configure.id := 0; Configure.object := "7";
       Configure.text := "Sales by region"; Configure.position := "right" |};
    {| Configure.id := 1; Configure.object := "";
       Configure.text := "Not yet bound to an object"; Configure.position := "top" |};
    {| Configure.id := 2; Configure.object := "1";
       Configure.text := "The tour itself"; Configure.position := "bottom" |} ].

(** The dialog holding the three rows. *)
Definition dialog : Configure.ConfigureState := {|
  Configure.rows := threeRows;
  Configure.selectedFont := "Lato";
  Configure.backgroundColor := "#202020";
  Configure.transparency := Configure.TNumber (Idx 55)
|}.

(** The layout the code computes in the concrete scenario. *)
Definition computedPositions : App.Positions := {|
  App.pos_top := {| App.box_top := Num 0; App.box_left := Num 0;
                    App.box_width := App.Css "100%"; App.box_height := Num 100 |};
  App.pos_left := {| App.box_top := Num 100; App.box_left := Num 0;
                     App.box_width := App.Px (Num 100); App.box_height := Num 50.1 |};
  App.pos_right := {| App.box_top := Num 100; App.box_left := Num 300;
                      App.box_width := App.Px (Num 500); App.box_height := Num 50.1 |};
  App.pos_bottom := {| App.box_top := Num 150; App.box_left := Num 0;
                       App.box_width := App.Css "100%"; App.box_height := Num 450 |}
|}.

Definition computedTextBox : App.TextBox := {|
  App.tb_width := Num 300; App.tb_height := "auto";
  App.tb_top := Num 100; App.tb_left := Num 310
|}.

(** The layout of the specification's scenario, with numeric widths for
    the top and bottom boxes. *)
Definition specifiedPositions : App.Positions := {|
  App.pos_top := {| App.box_top := Num 0; App.box_left := Num 0;
                    App.box_width := App.Px (Num 800); App.box_height := Num 100 |};
  App.pos_left := {| App.box_top := Num 100; App.box_left := Num 0;
                     App.box_width := App.Px (Num 100); App.box_height := Num 50.1 |};
  App.pos_right := {| App.box_top := Num 100; App.box_left := Num 300;
                      App.box_width := App.Px (Num 500); App.box_height := Num 50.1 |};
  App.pos_bottom := {| App.box_top := Num 150; App.box_left := Num 0;
                       App.box_width := App.Px (Num 800); App.box_height := Num 450 |}
|}.

(** The layout the code computes for a step whose target is unknown,
    inside a container at [x = 0], [y = 0], anchored to the left. *)
Definition unresolvedPositions : App.Positions := {|
  App.pos_top := {| App.box_top := Num 0; App.box_left := Num 0;
                    App.box_width := App.Css "100%"; App.box_height := NaN |};
  App.pos_left := {| App.box_top := NaN; App.box_left := Num 0;
                     App.box_width := App.Px NaN; App.box_height := NaN |};
  App.pos_right := {| App.box_top := NaN; App.box_left := NaN;
                      App.box_width := App.Px NaN; App.box_height := NaN |};
  App.pos_bottom := {| App.box_top := NaN; App.box_left := Num 0;
                       App.box_width := App.Css "100%"; App.box_height := NaN |}
|}.

Definition unresolvedTextBox : App.TextBox := {|
  App.tb_width := Num 300; App.tb_height := "auto";
  App.tb_top := NaN; App.tb_left := NaN
|}.

(** The four boxes of the concrete scenario, as the render lists them. *)
Definition computedBoxes : list (string * App.Box) :=
  [("top", App.pos_top computedPositions);
   ("left", App.pos_left computedPositions);
   ("right", App.pos_right computedPositions);
   ("bottom", App.pos_bottom computedPositions)].

(** A stand-in for the colour function of the library: it returns for a
    colour written with a leading [#] and throws for any other. *)
Definition alphaOfHex (color : string) (value : App.Transparency) : option string :=
  match color with
  | String "#" _ => Some color
  | _ => None
  end.

(** A settings object with one step and a colour name. *)
Definition oneStepInRed : gmap string string :=
  <["backgroundColor" := "red"]> oneStep.

(** A container 800.1 pixels wide and a target 128.2 pixels wide at its
    left edge, in binary64. *)
Definition fractionalExtents : Binary64.Extents :=
  Binary64.maskExtents
    (Binary64.ofZ 0) (Binary64.ofZ 0) (Binary64.literal 1282 10) (Binary64.ofZ 50)
    (Binary64.ofZ 0) (Binary64.ofZ 0) (Binary64.literal 8001 10) (Binary64.ofZ 600).

(** The concrete scenario in binary64. *)
Definition integerExtents : Binary64.Extents :=
  Binary64.maskExtents
    (Binary64.ofZ 100) (Binary64.ofZ 100) (Binary64.ofZ 200) (Binary64.ofZ 50)
    (Binary64.ofZ 0) (Binary64.ofZ 0) (Binary64.ofZ 800) (Binary64.ofZ 600).

End Scenario.

(** * Properties *)

Import JS Settings.

(** ** The JavaScript operations on concrete values *)

Example parseInt_values :
  parseInt "42" = Idx 42 /\ parseInt "  12px" = Idx 12 /\
  parseInt "007" = Idx 7 /\ parseInt "-7" = Idx (-7) /\
  parseInt "" = IdxNaN /\ parseInt "many" = IdxNaN /\ parseInt "- 1" = IdxNaN.
Proof. repeat split; reflexivity. Qed.

Example toString_values :
  toString 0 = "0" /\ toString 120 = "120" /\ Z_toString (-5) = "-5" /\
  tourKey 12 "_text" = "tour12_text".
Proof. repeat split; reflexivity. Qed.

Example remainder_values :
  irem (Idx 3) 3 = Idx 0 /\ irem (Idx 4) 3 = Idx 1 /\
  irem (Idx (-1)) 3 = Idx (-1) /\ irem (Idx 1) 0 = IdxNaN /\
  irem IdxNaN 3 = IdxNaN.
Proof. repeat split; reflexivity. Qed.

Example at_index_values :
  at_index ["a"; "b"] (Idx 1) = Some "b" /\ at_index ["a"; "b"] (Idx 2) = None /\
  at_index ["a"; "b"] (Idx (-1)) = None /\ at_index ["a"; "b"] IdxNaN = None.
Proof. repeat split; reflexivity. Qed.

Example orDefault_values :
  orDefault None "right" = "right" /\ orDefault (Some "") "right" = "right" /\
  orDefault (Some "top") "right" = "top" /\ orDefault (Some "0") "0" = "0".
Proof. repeat split; reflexivity. Qed.

(** A [rowCount] that is no number gives no iteration, hence no item. *)
Example malformed_rowCount :
  rowCountOf (<["rowCount" := "many"]> Scenario.oneStep) = IdxNaN /\
  App.readTourItems Scenario.dashboard (<["rowCount" := "many"]> Scenario.oneStep) = [].
Proof. split; vm_compute; reflexivity. Qed.

(** The arrows on concrete rows; an index that is not the index of a row
    is outside what the handlers can do to a list of rows. *)
Example move_values :
  Configure.id <$> default [] (Configure.handleMoveDown 0 Scenario.threeRows)
    = [1; 0; 2]%nat /\
  Configure.id <$> default [] (Configure.handleMoveUp 2 Scenario.threeRows)
    = [0; 2; 1]%nat /\
  Configure.handleMoveUp 3 Scenario.threeRows = None /\
  Configure.handleMoveDown (-1) Scenario.threeRows = None.
Proof. repeat split; reflexivity. Qed.

(** ** Layout *)

Lemma updateBoxPositions_layout (s : App.AppState) (stepIndex : Index)
    (items : list App.TourItem) (item : App.TourItem) (ext : App.Rect) :
  at_index items stepIndex = Some item ->
  App.extensionPosition s = Some ext ->
  let adjustedX := sub (App.prop App.d_x (App.details item)) (App.ext_x ext) in
  let adjustedY := sub (App.prop App.d_y (App.details item)) (App.ext_y ext) in
  let width := App.prop App.d_width (App.details item) in
  let height := App.prop App.d_height (App.details item) in
  App.updateBoxPositions stepIndex items s =
    App.setTextVisible true
      (App.setTextPosition
         (App.textBoxPosition (App.position item) adjustedX adjustedY width height)
         (App.setBoxPositions
            (App.maskPositions App.verticalOverlap ext adjustedX adjustedY width height)
            s)).
Proof.
  intros Hitem Hext. unfold App.updateBoxPositions.
  rewrite Hitem, Hext. reflexivity.
Qed.

Lemma updateBoxPositions_skip (s : App.AppState) (stepIndex : Index)
    (items : list App.TourItem) :
  at_index items stepIndex = None \/ App.extensionPosition s = None ->
  App.updateBoxPositions stepIndex items s = s.
Proof.
  intros [H | H]; unfold App.updateBoxPositions; rewrite H; [reflexivity |].
  destruct (at_index items stepIndex); reflexivity.
Qed.

Lemma inject_Z_sub (a b : Z) : (inject_Z a - inject_Z b == inject_Z (a - b))%Q.
Proof. unfold Qminus. rewrite <- inject_Z_opp, <- inject_Z_plus. reflexivity. Qed.

(** On integer pixels the doubles agree with the exact arithmetic: the
    concrete scenario evaluated in binary64. *)
Example binary64_on_integer_pixels :
  let e := Scenario.integerExtents in
  Binary64.left_width e = Binary64.ofZ 100 /\
  Binary64.right_left e = Binary64.ofZ 300 /\
  Binary64.right_width e = Binary64.ofZ 500 /\
  Binary64.top_height e = Binary64.ofZ 100 /\
  Binary64.bottom_top e = Binary64.ofZ 150 /\
  Binary64.bottom_height e = Binary64.ofZ 450 /\
  Binary64.left_height e = Binary64.literal 501 10 /\
  Binary64.right_height e = Binary64.literal 501 10 /\
  Binary64.eqb
    (Binary64.add (Binary64.add (Binary64.left_width e) (Binary64.ofZ 200))
       (Binary64.right_width e))
    (Binary64.ofZ 800) = true.
Proof. cbv zeta. repeat split; vm_compute; reflexivity. Qed.

(** C1 as the specification states it, for every target and container,
    does not hold of the doubles the code computes with.  For a container
    [{x:0, y:0, width:800.1, height:600}] and a target
    [{x:0, y:0, width:128.2, height:50}] the code gives
    [left.width = 0] and [right.width = 800.1 - (0 + 128.2)], which is the
    double [671.9000000000001], and
    [left.width + target.width + right.width] is the double
    [800.1000000000001], not [800.1]. *)
Lemma mask_tiling_fails_on_fractions :
  let e := Scenario.fractionalExtents in
  let targetWidth := Binary64.literal 1282 10 in
  let containerWidth := Binary64.literal 8001 10 in
  Binary64.left_width e = Binary64.ofZ 0 /\
  Binary64.right_width e = Binary64.literal 6719000000000001 10000000000000 /\
  Binary64.right_width e <> Binary64.literal 6719 10 /\
  Binary64.add (Binary64.add (Binary64.left_width e) targetWidth)
    (Binary64.right_width e)
  = Binary64.literal 8001000000000001 10000000000000 /\
  Binary64.eqb
    (Binary64.add (Binary64.add (Binary64.left_width e) targetWidth)
       (Binary64.right_width e))
    containerWidth = false.
Proof.
  cbv zeta. repeat split; try (vm_compute; reflexivity).
  vm_compute. intros H. discriminate H.
Qed.

(** C1 (amended).  Mask tiling on integer pixels.  For a target and a
    container whose coordinates are integer pixels, the container's width
    and height being non-negative, the boxes computed by
    [updateBoxPositions] satisfy
    [left.width + target.width + right.width == container.width] and
    [top.height + target.height + bottom.height == container.height], with
    [left.width = target.x - container.x],
    [right.width = container.width - ((target.x - container.x) + target.width)],
    [top.height = target.y - container.y] and
    [bottom.height = container.height - ((target.y - container.y) + target.height)],
    all four of them integers.  Changing the overlap constant changes
    nothing but the heights of the left and right boxes. *)
Theorem mask_tiling (s : App.AppState) (stepIndex : Index)
    (items : list App.TourItem) (item : App.TourItem) (name : string)
    (tx ty tw th cx cy cw ch : Z) :
  at_index items stepIndex = Some item ->
  App.details item = App.Known (Spec.pixelTarget name tx ty tw th) ->
  App.extensionPosition s = Some (Spec.pixelContainer cx cy cw ch) ->
  Forall Spec.pixel [tx; ty; tw; th; cx; cy; cw; ch] ->
  (0 <= cw)%Z -> (0 <= ch)%Z ->
  exists (m : App.Positions) (leftW rightW topH bottomH : Q),
    App.boxPositions (App.updateBoxPositions stepIndex items s) = Some m /\
    App.box_width (App.pos_left m) = App.Px (Num leftW) /\
    App.box_width (App.pos_right m) = App.Px (Num rightW) /\
    App.box_height (App.pos_top m) = Num topH /\
    App.box_height (App.pos_bottom m) = Num bottomH /\
    (leftW == inject_Z (tx - cx))%Q /\
    (rightW == inject_Z (cw - ((tx - cx) + tw)))%Q /\
    (topH == inject_Z (ty - cy))%Q /\
    (bottomH == inject_Z (ch - ((ty - cy) + th)))%Q /\
    (leftW + inject_Z tw + rightW == inject_Z cw)%Q /\
    (topH + inject_Z th + bottomH == inject_Z ch)%Q /\
    forall overlap : Number,
      let m' := App.maskPositions overlap (Spec.pixelContainer cx cy cw ch)
                  (Num (inject_Z tx - inject_Z cx))
                  (Num (inject_Z ty - inject_Z cy))
                  (Num (inject_Z tw)) (Num (inject_Z th)) in
      App.pos_top m' = App.pos_top m /\
      App.pos_bottom m' = App.pos_bottom m /\
      App.box_top (App.pos_left m') = App.box_top (App.pos_left m) /\
      App.box_left (App.pos_left m') = App.box_left (App.pos_left m) /\
      App.box_width (App.pos_left m') = App.box_width (App.pos_left m) /\
      App.box_top (App.pos_right m') = App.box_top (App.pos_right m) /\
      App.box_left (App.pos_right m') = App.box_left (App.pos_right m) /\
      App.box_width (App.pos_right m') = App.box_width (App.pos_right m) /\
      App.box_height (App.pos_left m') = add (Num (inject_Z th)) overlap /\
      App.box_height (App.pos_right m') = add (Num (inject_Z th)) overlap.
Proof.
  intros Hitem Hdetails Hext _ _ _.
  rewrite (updateBoxPositions_layout s stepIndex items item _ Hitem Hext).
  rewrite Hdetails.
  unfold Spec.pixelTarget, Spec.pixelContainer, Spec.target, Spec.container.
  cbn [App.prop App.d_x App.d_y App.d_width App.d_height
       App.ext_x App.ext_y App.ext_width App.ext_height
       App.boxPositions App.setTextVisible App.setTextPosition
       App.setBoxPositions App.maskPositions sub add
       App.pos_left App.pos_right App.pos_top App.pos_bottom
       App.box_width App.box_height App.box_top App.box_left].
  eexists _, (inject_Z tx - inject_Z cx)%Q,
    (inject_Z cw - (inject_Z tx - inject_Z cx + inject_Z tw))%Q,
    (inject_Z ty - inject_Z cy)%Q,
    (inject_Z ch - (inject_Z ty - inject_Z cy + inject_Z th))%Q.
  split; [reflexivity |].
  do 4 (split; [reflexivity |]).
  split; [apply inject_Z_sub |].
  split; [rewrite <- inject_Z_sub, inject_Z_plus, <- inject_Z_sub; reflexivity |].
  split; [apply inject_Z_sub |].
  split; [rewrite <- inject_Z_sub, inject_Z_plus, <- inject_Z_sub; reflexivity |].
  split; [ring |]. split; [ring |].
  intros overlap. cbn. repeat split.
Qed.

Lemma mask_tiling_witness :
  exists (m : App.Positions) (leftW rightW topH bottomH : Q),
    App.boxPositions
      (App.updateBoxPositions (Idx 0) [Scenario.salesItem]
         (App.setExtensionPosition (Spec.pixelContainer 0 0 800 600)
            App.initialState)) = Some m /\
    App.box_width (App.pos_left m) = App.Px (Num leftW) /\
    App.box_width (App.pos_right m) = App.Px (Num rightW) /\
    App.box_height (App.pos_top m) = Num topH /\
    App.box_height (App.pos_bottom m) = Num bottomH /\
    (leftW + 200 + rightW == 800)%Q /\
    (topH + 50 + bottomH == 600)%Q.
Proof.
  destruct (mask_tiling
              (App.setExtensionPosition (Spec.pixelContainer 0 0 800 600)
                 App.initialState)
              (Idx 0) [Scenario.salesItem] Scenario.salesItem "Sales"
              100 100 200 50 0 0 800 600)
    as (m & lw & rw & tH & bH & Hm & Hl & Hr & Ht & Hb & _ & _ & _ & _ & Hw & Hh & _).
  - reflexivity.
  - reflexivity.
  - reflexivity.
  - repeat constructor; apply Z.leb_le; reflexivity.
  - discriminate.
  - discriminate.
  - exists m, lw, rw, tH, bH. repeat split; assumption.
Defined.

(** C2 (as the code has it).  In the concrete scenario, container
    [{x:0,y:0,width:800,height:600}], target
    [{x:100,y:100,width:200,height:50}], anchor [right], the layout is
    mask.left [{top:100,left:0,width:100,height:50.1}], mask.right
    [{top:100,left:300,width:500,height:50.1}], mask.top
    [{top:0,left:0,width:"100%",height:100}], mask.bottom
    [{top:150,left:0,width:"100%",height:450}] and tooltip
    [{top:100,left:310,width:300,height:"auto"}]; the frame the two
    percentages refer to is painted 800 pixels wide.  The same layout is
    obtained by the direct call and by mounting the player on the
    dashboard of the scenario. *)
Theorem concrete_scenario_layout :
  let direct :=
    App.updateBoxPositions (Idx 0) [Scenario.salesItem]
      (App.setExtensionPosition (Spec.container 0 0 800 600)
         App.initialState) in
  let mounted := App.mount Scenario.dashboard Scenario.oneStep in
  App.boxPositions direct = Some Scenario.computedPositions /\
  App.textPosition direct = Some Scenario.computedTextBox /\
  App.boxPositions mounted = Some Scenario.computedPositions /\
  App.textPosition mounted = Some Scenario.computedTextBox /\
  App.v_frame (App.render mounted) = (App.Px (Num 800), App.Px (Num 600)).
Proof.
  cbv zeta. repeat split; vm_compute; reflexivity.
Qed.

(** C2 as the specification states it does not hold: the widths of the
    top and bottom boxes are the string ["100%"], no number, hence not
    [800]. *)
Lemma concrete_scenario_width_not_800 :
  App.boxPositions
    (App.updateBoxPositions (Idx 0) [Scenario.salesItem]
       (App.setExtensionPosition (Spec.container 0 0 800 600)
          App.initialState))
  <> Some Scenario.specifiedPositions /\
  forall m : App.Positions,
    App.boxPositions
      (App.updateBoxPositions (Idx 0) [Scenario.salesItem]
         (App.setExtensionPosition (Spec.container 0 0 800 600)
            App.initialState)) = Some m ->
    (forall n : Number, App.box_width (App.pos_top m) <> App.Px n) /\
    (forall n : Number, App.box_width (App.pos_bottom m) <> App.Px n).
Proof.
  split.
  - intros H. apply (f_equal (fun o => App.box_width (App.pos_top (default Scenario.specifiedPositions o)))) in H.
    vm_compute in H. discriminate H.
  - intros m Hm. vm_compute in Hm. injection Hm as <-.
    split; intros n Hn; discriminate Hn.
Qed.

(** ** Playback *)

Lemma tourItems_updateBoxPositions (i : Index) (items : list App.TourItem)
    (s : App.AppState) :
  App.tourItems (App.updateBoxPositions i items s) = App.tourItems s.
Proof.
  unfold App.updateBoxPositions.
  destruct (at_index items i), (App.extensionPosition s); reflexivity.
Qed.

Lemma currentStep_updateBoxPositions (i : Index) (items : list App.TourItem)
    (s : App.AppState) :
  App.currentStep (App.updateBoxPositions i items s) = App.currentStep s.
Proof.
  unfold App.updateBoxPositions.
  destruct (at_index items i), (App.extensionPosition s); reflexivity.
Qed.

Lemma at_index_nil {A : Type} (i : Index) : at_index (@nil A) i = None.
Proof.
  destruct i as [z |]; [| reflexivity].
  unfold at_index. destruct (0 <=? z)%Z; reflexivity.
Qed.

Lemma tourItems_handleNext (s : App.AppState) :
  App.tourItems (App.handleNext s) = App.tourItems s.
Proof. unfold App.handleNext. rewrite tourItems_updateBoxPositions. reflexivity. Qed.

Lemma tourItems_handlePrevious (s : App.AppState) :
  App.tourItems (App.handlePrevious s) = App.tourItems s.
Proof. unfold App.handlePrevious. rewrite tourItems_updateBoxPositions. reflexivity. Qed.

Lemma tourItems_handleStepClick (k : nat) (s : App.AppState) :
  App.tourItems (App.handleStepClick k s) = App.tourItems s.
Proof. unfold App.handleStepClick. rewrite tourItems_updateBoxPositions. reflexivity. Qed.

Lemma currentStep_handleNext (s : App.AppState) :
  App.currentStep (App.handleNext s) =
  irem (iadd (App.currentStep s) 1) (length (App.tourItems s)).
Proof. unfold App.handleNext. rewrite currentStep_updateBoxPositions. reflexivity. Qed.

Lemma currentStep_handlePrevious (s : App.AppState) :
  App.currentStep (App.handlePrevious s) =
  irem (iadd (iadd (App.currentStep s) (-1))
          (Z.of_nat (length (App.tourItems s))))
    (length (App.tourItems s)).
Proof. unfold App.handlePrevious. rewrite currentStep_updateBoxPositions. reflexivity. Qed.

Lemma currentStep_handleStepClick (k : nat) (s : App.AppState) :
  App.currentStep (App.handleStepClick k s) = Idx (Z.of_nat k).
Proof. unfold App.handleStepClick. rewrite currentStep_updateBoxPositions. reflexivity. Qed.

Lemma tourItems_load (objects : list App.DashboardObject)
    (settings : gmap string string) (s : App.AppState) :
  App.tourItems (App.load objects settings s) = App.readTourItems objects settings.
Proof.
  unfold App.load, App.layoutEffect.
  destruct (_ && _); [rewrite tourItems_updateBoxPositions |]; reflexivity.
Qed.

Lemma currentStep_load (objects : list App.DashboardObject)
    (settings : gmap string string) (s : App.AppState) :
  App.currentStep (App.load objects settings s) = Idx 0.
Proof.
  unfold App.load, App.layoutEffect.
  destruct (_ && _); [rewrite currentStep_updateBoxPositions |]; reflexivity.
Qed.

(** Navigation and loading never change the item list behind the
    reader's back: these equations are used as rewrite rules. *)
Create Rewrite HintDb tour_items.
#[local] Hint Rewrite tourItems_updateBoxPositions tourItems_handleNext
  tourItems_handlePrevious tourItems_handleStepClick tourItems_load : tour_items.

Ltac same_items := autorewrite with tour_items.

Lemma layouts_mount_empty (objects : list App.DashboardObject)
    (settings : gmap string string) :
  App.readTourItems objects settings = [] ->
  Spec.layouts (App.mount objects settings) = (None, None).
Proof.
  intros Hempty. unfold App.mount, App.load, App.layoutEffect.
  change (App.tourItems (App.refreshTourItems objects settings ?s))
    with (App.readTourItems objects settings).
  rewrite Hempty. cbn.
  destruct (App.findExtensionObject objects); reflexivity.
Qed.

Lemma layouts_updateBoxPositions_empty (i : Index) (s : App.AppState) :
  Spec.layouts (App.updateBoxPositions i [] s) = Spec.layouts s.
Proof.
  rewrite updateBoxPositions_skip; [reflexivity |].
  left. apply at_index_nil.
Qed.

Lemma indexInRange_next (s : App.AppState) :
  Spec.indexInRange s -> Spec.indexInRange (App.handleNext s).
Proof.
  intros (i & Hi & Hrange). unfold Spec.indexInRange.
  rewrite currentStep_handleNext, tourItems_handleNext, Hi.
  destruct (length (App.tourItems s)) as [| n] eqn:Hn; [simpl in Hrange; lia |].
  exists (Z.rem (i + 1) (Z.of_nat (S n))). split; [reflexivity |].
  apply Z.rem_bound_pos; lia.
Qed.

Lemma indexInRange_previous (s : App.AppState) :
  Spec.indexInRange s -> Spec.indexInRange (App.handlePrevious s).
Proof.
  intros (i & Hi & Hrange). unfold Spec.indexInRange.
  rewrite currentStep_handlePrevious, tourItems_handlePrevious, Hi.
  destruct (length (App.tourItems s)) as [| n] eqn:Hn; [simpl in Hrange; lia |].
  exists (Z.rem (i + -1 + Z.of_nat (S n)) (Z.of_nat (S n))).
  split; [reflexivity |].
  apply Z.rem_bound_pos; lia.
Qed.

Lemma paint_boxes (alpha : string -> App.Transparency -> option string)
    (s : App.AppState) (p : App.Positions) :
  App.boxPositions s = Some p ->
  (App.paint alpha s = None
   <-> alpha (App.backgroundColor s) (App.backgroundTransparency s) = None) /\
  forall v : App.View,
    App.paint alpha s = Some v ->
    v = App.render s /\
    App.v_boxes v = [("top", App.pos_top p); ("left", App.pos_left p);
                     ("right", App.pos_right p); ("bottom", App.pos_bottom p)].
Proof.
  intros Hbox. unfold App.paint. rewrite Hbox.
  destruct (alpha _ _) as [c |].
  - split; [split; discriminate |].
    intros v [= <-]. split; [reflexivity |].
    unfold App.render. cbn [App.v_boxes]. rewrite Hbox. reflexivity.
  - split; [split; reflexivity |]. discriminate.
Qed.

Lemma paint_no_boxes (alpha : string -> App.Transparency -> option string)
    (s : App.AppState) :
  App.boxPositions s = None -> App.paint alpha s = Some (App.render s).
Proof. intros Hbox. unfold App.paint. rewrite Hbox. reflexivity. Qed.

(** Before any re-configuration.  In every state reached by the load that
    mounts the player followed by any finite sequence of next, previous
    and jump-to-step actions, the configuration dialog not having been
    closed in between: if the sequence is not empty, the current index is
    an integer with [0 <= currentIndex < sequence.length]; if it is empty,
    no step is current and neither a grey box, nor an indicator, nor a
    text box is painted.  Across re-configurations the first half still
    holds and the second does not (the states [App.live]). *)
Theorem playback_index_invariant (objects : list App.DashboardObject)
    (settings : gmap string string) (s : App.AppState) :
  App.reachable objects settings s ->
  ((0 < length (App.tourItems s))%nat ->
     exists i : Z,
       App.currentStep s = Idx i /\
       (0 <= i < Z.of_nat (length (App.tourItems s)))%Z) /\
  (App.tourItems s = [] ->
     at_index (App.tourItems s) (App.currentStep s) = None /\
     (forall alpha : string -> App.Transparency -> option string,
        App.paint alpha s = Some (App.render s)) /\
     App.v_boxes (App.render s) = [] /\
     App.v_indicators (App.render s) = 0%nat /\
     App.v_textBox (App.render s) = None).
Proof.
  intros Hreach.
  assert (Hinv : ((0 < length (App.tourItems s))%nat -> Spec.indexInRange s) /\
                 (App.tourItems s = [] -> Spec.layouts s = (None, None))).
  { induction Hreach as [| s Hreach [IHidx IHlay] | s Hreach [IHidx IHlay]
                         | s k Hreach [IHidx IHlay] Hk].
    - split.
      + intros Hlen. exists 0%Z. unfold App.mount in *.
        rewrite currentStep_load. split; [reflexivity | lia].
      + intros Hempty. apply layouts_mount_empty.
        unfold App.mount in Hempty. autorewrite with tour_items in Hempty.
        exact Hempty.
    - split.
      + same_items. intros Hlen.
        eapply indexInRange_next, IHidx, Hlen.
      + same_items. intros Hempty.
        unfold App.handleNext. rewrite Hempty.
        rewrite layouts_updateBoxPositions_empty. apply IHlay, Hempty.
    - split.
      + same_items. intros Hlen.
        eapply indexInRange_previous, IHidx, Hlen.
      + same_items. intros Hempty.
        unfold App.handlePrevious. rewrite Hempty.
        rewrite layouts_updateBoxPositions_empty. apply IHlay, Hempty.
    - split.
      + same_items. intros _.
        exists (Z.of_nat k). rewrite currentStep_handleStepClick.
        same_items. split; [reflexivity | lia].
      + same_items. intros Hempty.
        rewrite Hempty in Hk. simpl in Hk. lia. }
  destruct Hinv as [Hidx Hlay]. split; [exact Hidx |].
  intros Hempty. specialize (Hlay Hempty).
  unfold Spec.layouts in Hlay. injection Hlay as Hbox Htext.
  split; [rewrite Hempty; apply at_index_nil |].
  split; [intros alpha; apply paint_no_boxes, Hbox |].
  unfold App.render. cbn. rewrite Hempty, Hbox, at_index_nil.
  repeat split.
Qed.

Lemma playback_index_invariant_witness :
  (exists i : Z,
     App.currentStep
       (App.handlePrevious (App.handleNext
          (App.mount Scenario.dashboard Scenario.threeSteps))) = Idx i /\
     (0 <= i < 3)%Z) /\
  App.v_boxes
    (App.render (App.handleNext (App.mount Scenario.dashboard ∅))) = [].
Proof.
  split.
  - destruct (playback_index_invariant Scenario.dashboard Scenario.threeSteps
                (App.handlePrevious (App.handleNext
                   (App.mount Scenario.dashboard Scenario.threeSteps))))
      as [Hidx _].
    + apply App.reach_previous, App.reach_next, App.reach_load.
    + apply Hidx. vm_compute. lia.
  - destruct (playback_index_invariant Scenario.dashboard ∅
                (App.handleNext (App.mount Scenario.dashboard ∅)))
      as [_ Hempty].
    + apply App.reach_next, App.reach_load.
    + apply Hempty. reflexivity.
Defined.

Lemma rem_wrap (a n : Z) : (0 <= a < n)%Z -> Z.rem (a + n) n = a.
Proof.
  intros H. rewrite Z.rem_mod_nonneg by lia.
  replace (a + n)%Z with (a + 1 * n)%Z by lia.
  rewrite Z.mod_add by lia. apply Z.mod_small. lia.
Qed.

Lemma iter_tourItems (f : App.AppState -> App.AppState) (s : App.AppState) (k : nat) :
  (forall t, App.tourItems (f t) = App.tourItems t) ->
  App.tourItems (Nat.iter k f s) = App.tourItems s.
Proof.
  intros Hf. induction k as [| k IH]; [reflexivity |].
  cbn. rewrite Hf. exact IH.
Qed.

Lemma iter_next_index (s : App.AppState) (k : nat) :
  App.currentStep s = Idx 0 ->
  (k < length (App.tourItems s))%nat ->
  App.currentStep (Nat.iter k App.handleNext s) = Idx (Z.of_nat k).
Proof.
  intros Hstart. induction k as [| k IH]; intros Hk; [exact Hstart |].
  change (Nat.iter (S k) App.handleNext s)
    with (App.handleNext (Nat.iter k App.handleNext s)).
  rewrite currentStep_handleNext.
  rewrite (iter_tourItems _ _ _ tourItems_handleNext), IH by lia.
  destruct (length (App.tourItems s)) as [| n] eqn:Hn; [lia |].
  cbn [iadd irem]. f_equal. rewrite Z.rem_small; lia.
Qed.

Lemma iter_previous_index (s : App.AppState) (k : nat) :
  App.currentStep s = Idx 0 ->
  (k < length (App.tourItems s))%nat ->
  App.currentStep (Nat.iter (S k) App.handlePrevious s) =
  Idx (Z.of_nat (length (App.tourItems s)) - Z.of_nat (S k)).
Proof.
  intros Hstart. induction k as [| k IH]; intros Hk.
  - change (Nat.iter 1 App.handlePrevious s) with (App.handlePrevious s).
    rewrite currentStep_handlePrevious, Hstart.
    destruct (length (App.tourItems s)) as [| n] eqn:Hn; [lia |].
    cbn [iadd irem]. f_equal. rewrite Z.rem_small; lia.
  - change (Nat.iter (S (S k)) App.handlePrevious s)
      with (App.handlePrevious (Nat.iter (S k) App.handlePrevious s)).
    rewrite currentStep_handlePrevious.
    rewrite (iter_tourItems _ _ _ tourItems_handlePrevious), IH by lia.
    destruct (length (App.tourItems s)) as [| n] eqn:Hn; [lia |].
    cbn [iadd irem]. f_equal.
    replace (Z.of_nat (S n) - Z.of_nat (S k) + -1 + Z.of_nat (S n))%Z
      with ((Z.of_nat (S n) - Z.of_nat (S (S k))) + Z.of_nat (S n))%Z by lia.
    apply rem_wrap. lia.
Qed.

(** C5. Circular navigation.  For a sequence of length [n >= 1] and the
    current index [0], calling next() exactly [n] times returns the
    current index to [0], and so does calling previous() exactly [n]
    times. *)
Theorem circular_navigation (s : App.AppState) (n : nat) :
  (1 <= n)%nat ->
  length (App.tourItems s) = n ->
  App.currentStep s = Idx 0 ->
  App.currentStep (Nat.iter n App.handleNext s) = Idx 0 /\
  App.currentStep (Nat.iter n App.handlePrevious s) = Idx 0.
Proof.
  intros Hn Hlen Hstart. destruct n as [| m]; [lia |]. split.
  - change (Nat.iter (S m) App.handleNext s)
      with (App.handleNext (Nat.iter m App.handleNext s)).
    rewrite currentStep_handleNext.
    rewrite (iter_tourItems _ _ _ tourItems_handleNext).
    rewrite iter_next_index by (trivial; lia).
    rewrite Hlen. cbn [iadd irem]. f_equal.
    replace (Z.of_nat m + 1)%Z with (Z.of_nat (S m)) by lia.
    apply Z.rem_same. lia.
  - rewrite iter_previous_index by (trivial; lia).
    f_equal. lia.
Qed.

Lemma circular_navigation_witness :
  App.currentStep
    (Nat.iter 3 App.handleNext
       (App.mount Scenario.dashboard Scenario.threeSteps)) = Idx 0 /\
  App.currentStep
    (Nat.iter 3 App.handlePrevious
       (App.mount Scenario.dashboard Scenario.threeSteps)) = Idx 0.
Proof.
  apply (circular_navigation
           (App.mount Scenario.dashboard Scenario.threeSteps) 3).
  - lia.
  - vm_compute. reflexivity.
  - vm_compute. reflexivity.
Defined.

(** On an empty sequence the two handlers take the remainder by zero. *)
Lemma empty_sequence_index (s : App.AppState) :
  App.tourItems s = [] ->
  App.currentStep (App.handleNext s) = IdxNaN /\
  App.currentStep (App.handlePrevious s) = IdxNaN.
Proof.
  intros Hempty.
  rewrite currentStep_handleNext, currentStep_handlePrevious, Hempty.
  split; cbn; destruct (App.currentStep s); reflexivity.
Qed.

Lemma empty_sequence_layouts (s : App.AppState) :
  App.tourItems s = [] ->
  Spec.layouts (App.handleNext s) = Spec.layouts s /\
  Spec.layouts (App.handlePrevious s) = Spec.layouts s.
Proof.
  intros Hempty. unfold App.handleNext, App.handlePrevious.
  rewrite Hempty, !layouts_updateBoxPositions_empty. split; reflexivity.
Qed.

(** C4. Empty-sequence behaviour, evaluated on the player mounted with no
    setting at all.  Loading leaves the player idle at index [0] with no
    layout, and next() and previous() produce no layout and paint
    nothing new; but they are not the no-ops the specification asks for:
    the current index becomes [NaN]. *)
Theorem empty_sequence_navigation :
  let s := App.mount Scenario.dashboard ∅ in
  App.playerState s = App.Idle /\
  App.currentStep s = Idx 0 /\
  Spec.layouts s = (None, None) /\
  Spec.layouts (App.handleNext s) = (None, None) /\
  Spec.layouts (App.handlePrevious s) = (None, None) /\
  App.render (App.handleNext s) = App.render s /\
  App.render (App.handlePrevious s) = App.render s /\
  App.currentStep (App.handleNext s) = IdxNaN /\
  App.currentStep (App.handlePrevious s) = IdxNaN /\
  App.handleNext s <> s /\
  App.handlePrevious s <> s.
Proof.
  cbv zeta.
  assert (Hidx : App.currentStep (App.mount Scenario.dashboard ∅) = Idx 0)
    by (vm_compute; reflexivity).
  assert (Hnan := empty_sequence_index (App.mount Scenario.dashboard ∅) eq_refl).
  destruct Hnan as [Hnext Hprev].
  repeat split; try (vm_compute; reflexivity); try assumption.
  - intros Heq. rewrite Heq in Hnext. congruence.
  - intros Heq. rewrite Heq in Hprev. congruence.
Qed.

(** A step whose target is not on the dashboard carries the empty object
    as details, so the guard of [updateBoxPositions] lets it through. *)
Lemma unresolved_target_layout (s : App.AppState) (stepIndex : Index)
    (items : list App.TourItem) (item : App.TourItem) (ext : App.Rect) :
  at_index items stepIndex = Some item ->
  App.details item = App.EmptyObject ->
  App.extensionPosition s = Some ext ->
  let s' := App.updateBoxPositions stepIndex items s in
  App.textVisible s' = true /\
  (exists p, App.boxPositions s' = Some p /\
             App.box_height (App.pos_top p) = NaN /\
             App.box_width (App.pos_left p) = App.Px NaN /\
             App.box_width (App.pos_right p) = App.Px NaN /\
             App.box_height (App.pos_bottom p) = NaN) /\
  (exists t, App.textPosition s' = Some t /\
             (App.tb_top t = NaN \/ App.tb_left t = NaN)).
Proof.
  intros Hitem Hdetails Hext. cbv zeta.
  rewrite (updateBoxPositions_layout s stepIndex items item ext Hitem Hext).
  rewrite Hdetails. cbn. split; [reflexivity |]. split.
  - eexists. split; [reflexivity |]. cbn.
    destruct (App.ext_width ext), (App.ext_height ext); repeat split.
  - eexists. split; [reflexivity |].
    unfold App.textBoxPosition.
    repeat (destruct (String.eqb _ _)); cbn; auto.
Qed.

(** C6. Fail-soft target resolution, evaluated on the three-step tour
    whose second step names object ["42"], which the dashboard does not
    hold.  Moving to that step raises no error and the player shows index
    [1]; but the layout is not left absent as the specification asks: it
    is produced, every coordinate that depends on the target being [NaN],
    and the text box is painted. *)
Theorem unresolved_target_is_laid_out :
  let s := App.handleNext (App.mount Scenario.dashboard Scenario.threeSteps) in
  App.playerState s = App.Showing (Idx 1) /\
  (App.details <$> at_index (App.tourItems s) (App.currentStep s))
    = Some App.EmptyObject /\
  App.boxPositions s = Some Scenario.unresolvedPositions /\
  App.textPosition s = Some Scenario.unresolvedTextBox /\
  App.textVisible s = true /\
  length (App.v_boxes (App.render s)) = 4%nat /\
  App.v_textBox (App.render s)
    = Some (Scenario.unresolvedTextBox, "A sheet that was removed").
Proof.
  cbv zeta. repeat split; vm_compute; reflexivity.
Qed.

(** ** The step store *)

Lemma swapRows_adjacent (rows : list Configure.Row) (k : nat)
    (a b : Configure.Row) :
  rows !! k = Some a -> rows !! S k = Some b ->
  Configure.swapRows (Z.of_nat k) (Z.of_nat k + 1) rows
  = Some (<[S k := a]> (<[k := b]> rows)).
Proof.
  intros Ha Hb. unfold Configure.swapRows.
  replace (Z.of_nat k + 1)%Z with (Z.of_nat (S k)) by lia.
  rewrite !Nat2Z.id, Ha, Hb.
  rewrite (proj2 (Z.leb_le 0 (Z.of_nat k))) by lia.
  rewrite (proj2 (Z.leb_le 0 (Z.of_nat (S k)))) by lia.
  reflexivity.
Qed.

Lemma swap_back (rows : list Configure.Row) (k : nat) (a b : Configure.Row) :
  rows !! k = Some a -> rows !! S k = Some b ->
  <[S k := b]> (<[k := a]> (<[S k := a]> (<[k := b]> rows))) = rows.
Proof.
  intros Ha Hb.
  rewrite (list_insert_insert_ne _ k (S k)) by lia.
  rewrite list_insert_insert_eq.
  rewrite list_insert_insert_eq.
  rewrite (list_insert_id _ k a Ha).
  apply list_insert_id, Hb.
Qed.

(** C7. Reorder invariants.  [moveUp(0)] is a no-op, [moveDown(n-1)] is a
    no-op, and for [1 <= i < n], [moveUp(i)] (which exchanges rows [i-1]
    and [i]) followed by [moveDown(i-1)] restores the original list. *)
Theorem reorder_invariants (rows : list Configure.Row) :
  Configure.handleMoveUp 0 rows = Some rows /\
  Configure.handleMoveDown (Z.of_nat (length rows) - 1) rows = Some rows /\
  forall i : Z,
    (1 <= i < Z.of_nat (length rows))%Z ->
    exists rows' : list Configure.Row,
      Configure.handleMoveUp i rows = Some rows' /\
      rows' !! Z.to_nat (i - 1) = rows !! Z.to_nat i /\
      rows' !! Z.to_nat i = rows !! Z.to_nat (i - 1) /\
      Configure.handleMoveDown (i - 1) rows' = Some rows.
Proof.
  split; [reflexivity |]. split.
  { unfold Configure.handleMoveDown. rewrite Z.eqb_refl. reflexivity. }
  intros i Hi.
  assert (Hik : exists k : nat, i = (Z.of_nat k + 1)%Z)
    by (exists (Z.to_nat (i - 1)); lia).
  destruct Hik as [k ->].
  assert (Hlt : (S k < length rows)%nat) by lia.
  destruct (lookup_lt_is_Some_2 rows k ltac:(lia)) as [a Ha].
  destruct (lookup_lt_is_Some_2 rows (S k) Hlt) as [b Hb].
  exists (<[S k := a]> (<[k := b]> rows)).
  replace (Z.to_nat (Z.of_nat k + 1)) with (S k) by lia.
  replace (Z.of_nat k + 1 - 1)%Z with (Z.of_nat k) by lia.
  rewrite Nat2Z.id.
  assert (Hk : <[S k := a]> (<[k := b]> rows) !! k = Some b).
  { rewrite list_lookup_insert_ne by lia. apply list_lookup_insert_eq. lia. }
  assert (HSk : <[S k := a]> (<[k := b]> rows) !! S k = Some a).
  { apply list_lookup_insert_eq. rewrite length_insert. lia. }
  split; [| split; [| split]].
  - unfold Configure.handleMoveUp.
    rewrite (proj2 (Z.eqb_neq (Z.of_nat k + 1) 0)) by lia.
    replace (Z.of_nat k + 1 - 1)%Z with (Z.of_nat k) by lia.
    apply swapRows_adjacent; assumption.
  - rewrite Hk, Hb. reflexivity.
  - rewrite HSk, Ha. reflexivity.
  - unfold Configure.handleMoveDown. rewrite !length_insert.
    rewrite (proj2 (Z.eqb_neq (Z.of_nat k) (Z.of_nat (length rows) - 1))) by lia.
    rewrite (swapRows_adjacent _ k b a Hk HSk).
    f_equal. apply swap_back; assumption.
Qed.

Lemma reorder_invariants_witness :
  Configure.handleMoveUp 0 Scenario.threeRows = Some Scenario.threeRows /\
  Configure.handleMoveDown 2 Scenario.threeRows = Some Scenario.threeRows /\
  exists rows' : list Configure.Row,
    Configure.handleMoveUp 2 Scenario.threeRows = Some rows' /\
    Configure.handleMoveDown 1 rows' = Some Scenario.threeRows.
Proof.
  destruct (reorder_invariants Scenario.threeRows) as (Hup & Hdown & Hmove).
  split; [exact Hup |]. split; [exact Hdown |].
  destruct (Hmove 2%Z) as (rows' & H1 & _ & _ & H2).
  - simpl. lia.
  - exists rows'. split; assumption.
Defined.

(** ** The settings encoding *)

(** *** Decimal strings *)

Lemma string_of_uint_digits (d : Decimal.uint) :
  all_digits (NilEmpty.string_of_uint d).
Proof.
  induction d; cbn; try (split; [eexists; reflexivity | assumption]); exact I.
Qed.

Lemma toString_digits (n : nat) : all_digits (toString n).
Proof. apply string_of_uint_digits. Qed.

Lemma digits_suffix_inj (s1 s2 a b : string) :
  all_digits s1 -> all_digits s2 ->
  s1 ++ String "_" a = s2 ++ String "_" b -> s1 = s2 /\ a = b.
Proof.
  revert s2. induction s1 as [| c s1 IH]; intros [| c' s2] H1 H2 Heq; cbn in *.
  - injection Heq as ->. split; reflexivity.
  - injection Heq as <- _. destruct H2 as [[v Hv] _]. discriminate Hv.
  - injection Heq as -> _. destruct H1 as [[v Hv] _]. discriminate Hv.
  - injection Heq as -> Heq. destruct H1 as [_ H1], H2 as [_ H2].
    destruct (IH s2 H1 H2 Heq) as [-> ->]. split; reflexivity.
Qed.

Lemma parse_digits_of_uint (d : Decimal.uint) (acc : nat) :
  parse_digits (NilEmpty.string_of_uint d) (Some (Z.of_nat acc))
  = Some (Z.of_nat (Nat.of_uint_acc d acc)).
Proof.
  revert acc. induction d; intros acc; cbn [NilEmpty.string_of_uint parse_digits];
    [reflexivity | ..].
  all: cbn [digit_value nat_of_ascii]; cbn - [Nat.of_uint_acc Z.of_nat Z.mul Z.add parse_digits].
  all: cbn [Nat.of_uint_acc]; rewrite <- IHd; f_equal; f_equal.
  all: match goal with
       | |- context [Z.of_nat (nat_of_ascii ?c - 48)] =>
           let v := eval vm_compute in (Z.of_nat (nat_of_ascii c - 48)) in
           change (Z.of_nat (nat_of_ascii c - 48)) with v
       end.
  all: rewrite Nat.tail_mul_spec; lia.
Qed.

Lemma to_uint_nonnil (n : nat) : Nat.to_uint n <> Decimal.Nil.
Proof.
  rewrite <- (Unsigned.of_to n) at 1. rewrite Unsigned.to_of.
  unfold Decimal.unorm. destruct (Decimal.nzhead _); discriminate.
Qed.

Lemma parse_digits_of_uint_start (d : Decimal.uint) :
  d <> Decimal.Nil ->
  parse_digits (NilEmpty.string_of_uint d) None
  = Some (Z.of_nat (Nat.of_uint d)).
Proof.
  intros Hnil. unfold Nat.of_uint.
  destruct d; [congruence | ..].
  all: cbn [NilEmpty.string_of_uint parse_digits Nat.of_uint_acc].
  all: rewrite <- parse_digits_of_uint; reflexivity.
Qed.

Lemma parseInt_digit (c : ascii) (r : string) :
  is_Some (digit_value c) ->
  parseInt (String c r)
  = match parse_digits (String c r) None with
    | Some v => Idx v
    | None => IdxNaN
    end.
Proof.
  intros [v Hv].
  destruct c as [[] [] [] [] [] [] [] []]; try discriminate Hv; reflexivity.
Qed.

(** [parseInt] reads back what [toString] prints. *)
Lemma parseInt_toString (n : nat) : parseInt (toString n) = Idx (Z.of_nat n).
Proof.
  unfold toString.
  assert (Hdigits := string_of_uint_digits (Nat.to_uint n)).
  assert (Hparse := parse_digits_of_uint_start _ (to_uint_nonnil n)).
  rewrite Unsigned.of_to in Hparse.
  destruct (NilEmpty.string_of_uint (Nat.to_uint n)) as [| c r].
  - discriminate Hparse.
  - destruct Hdigits as [Hc _]. rewrite (parseInt_digit c r Hc), Hparse.
    reflexivity.
Qed.

Lemma toString_inj (i j : nat) : toString i = toString j -> i = j.
Proof.
  intros H. apply (f_equal parseInt) in H.
  rewrite !parseInt_toString in H. injection H as H. lia.
Qed.

(** *** Keys *)

Lemma tourKey_inj (i j : nat) (a b : string) :
  tourKey i (String "_" a) = tourKey j (String "_" b) -> i = j /\ a = b.
Proof.
  unfold tourKey. intros H. cbn in H. injection H as H.
  destruct (digits_suffix_inj _ _ _ _ (toString_digits i) (toString_digits j) H)
    as [Hij ->].
  split; [apply toString_inj, Hij | reflexivity].
Qed.

Lemma tourKey_head (i : nat) (suffix : string) :
  exists rest, tourKey i suffix = String "t" (String "o" (String "u" (String "r" rest))).
Proof. eexists. reflexivity. Qed.

(** *** The loops *)

Lemma for_loop_append {A : Type} (f : nat -> list A) (i count : nat) (acc : list A) :
  for_loop (fun k l => (l ++ f k)%list) i count acc
  = (acc ++ flat_map f (seq i count))%list.
Proof.
  revert i acc. induction count as [| count IH]; intros i acc; cbn.
  - rewrite app_nil_r. reflexivity.
  - rewrite IH, <- app_assoc. reflexivity.
Qed.

Lemma for_loop_ext {A : Type} (f g : nat -> A -> A) (i count : nat) (acc : A) :
  (forall k a, f k a = g k a) ->
  for_loop f i count acc = for_loop g i count acc.
Proof.
  intros Hfg. revert i acc. induction count as [| count IH]; intros i acc; cbn.
  - reflexivity.
  - rewrite Hfg. apply IH.
Qed.

Lemma flat_map_singleton {A B : Type} (f : A -> B) (l : list A) :
  flat_map (fun a => [f a]) l = f <$> l.
Proof. induction l as [| a l IH]; cbn; [| rewrite IH]; reflexivity. Qed.

Lemma flat_map_filter {A B : Type} (p : A -> bool) (f : A -> B) (l : list A) :
  flat_map (fun a => if p a then [f a] else []) l = f <$> List.filter p l.
Proof.
  induction l as [| a l IH]; cbn; [reflexivity |].
  rewrite IH. destruct (p a); reflexivity.
Qed.

(** *** What [handleSave] stores *)

Lemma lookup_fold_delete (keys : list string) (m : gmap string string) (k : string) :
  fold_left (fun m key => delete key m) keys m !! k
  = if decide (k ∈ keys) then None else m !! k.
Proof.
  revert m. induction keys as [| key keys IH]; intros m; cbn.
  - destruct (decide (k ∈ [])) as [Hin | _]; [| reflexivity].
    apply elem_of_nil in Hin. contradiction.
  - rewrite IH. destruct (decide (k ∈ keys)) as [Hin | Hnin].
    + rewrite decide_True by (right; exact Hin). reflexivity.
    + destruct (decide (k = key)) as [-> | Hne].
      * rewrite decide_True by left. apply lookup_delete_eq.
      * rewrite decide_False by (intros Hin; apply elem_of_cons in Hin;
                                 destruct Hin; contradiction).
        apply lookup_delete_ne. congruence.
Qed.

Lemma eraseAll_empty (existing : gmap string string) :
  Configure.eraseAll existing = ∅.
Proof.
  apply map_eq. intros k. unfold Configure.eraseAll.
  rewrite lookup_fold_delete, lookup_empty.
  destruct (decide (k ∈ (map_to_list existing).*1)) as [_ | Hnin]; [reflexivity |].
  destruct (existing !! k) as [v |] eqn:Hk; [| reflexivity].
  exfalso. apply Hnin. apply list_elem_of_fmap. exists (k, v).
  split; [reflexivity |]. apply elem_of_map_to_list. exact Hk.
Qed.

(** A key that is not the key of a row at or after [index] is left alone
    by [saveRows]. *)
Lemma lookup_saveRows_other (rows : list Configure.Row) (index : nat)
    (settings : gmap string string) (k : string) :
  (forall (j : nat) (a : string),
      (index <= j)%nat -> k <> tourKey j (String "_" a)) ->
  Configure.saveRows rows index settings !! k = settings !! k.
Proof.
  revert index settings. induction rows as [| row rows IH]; intros index settings Hk.
  - reflexivity.
  - cbn [Configure.saveRows]. rewrite IH by (intros j a Hj; apply Hk; lia).
    rewrite !lookup_insert_ne by (apply not_eq_sym, Hk; lia). reflexivity.
Qed.

Lemma tourKey_ne (i j : nat) (a b : string) :
  i <> j \/ a <> b ->
  tourKey i (String "_" a) <> tourKey j (String "_" b).
Proof.
  intros H Heq. apply tourKey_inj in Heq. destruct Heq as [Hij Hab].
  destruct H; contradiction.
Qed.

(** Row [i] is stored under the three keys of index [index + i]. *)
Lemma lookup_saveRows_row (rows : list Configure.Row) (index i : nat)
    (settings : gmap string string) (row : Configure.Row) :
  rows !! i = Some row ->
  Configure.saveRows rows index settings !! tourKey (index + i) "_object"
    = Some (Configure.object row) /\
  Configure.saveRows rows index settings !! tourKey (index + i) "_text"
    = Some (Configure.text row) /\
  Configure.saveRows rows index settings !! tourKey (index + i) "_position"
    = Some (Configure.position row).
Proof.
  revert index i settings.
  induction rows as [| r rows IH]; intros index i settings Hrow; [discriminate |].
  destruct i as [| i]; cbn [Configure.saveRows].
  - injection Hrow as ->. rewrite Nat.add_0_r.
    rewrite !lookup_saveRows_other
      by (intros j a Hj; apply tourKey_ne; left; lia).
    repeat split.
    + rewrite !lookup_insert_ne by (apply tourKey_ne; right; discriminate).
      apply lookup_insert_eq.
    + rewrite lookup_insert_ne by (apply tourKey_ne; right; discriminate).
      apply lookup_insert_eq.
    + apply lookup_insert_eq.
  - replace (index + S i)%nat with (S index + i)%nat by lia.
    apply IH. exact Hrow.
Qed.

Lemma lookup_handleSave_rowCount (existing : gmap string string)
    (s : Configure.ConfigureState) :
  Configure.handleSave existing s !! "rowCount"
  = Some (toString (length (Configure.rows s))).
Proof.
  unfold Configure.handleSave. rewrite lookup_saveRows_other.
  - apply lookup_insert_eq.
  - intros j a _ H. destruct (tourKey_head j (String "_" a)) as [rest Hrest].
    rewrite Hrest in H. discriminate H.
Qed.

Lemma rowCountOf_handleSave (existing : gmap string string)
    (s : Configure.ConfigureState) :
  rowCountOf (Configure.handleSave existing s)
  = Idx (Z.of_nat (length (Configure.rows s))).
Proof.
  unfold rowCountOf. rewrite lookup_handleSave_rowCount.
  assert (Hdef : forall t, t <> "" -> orDefault (Some t) "0" = t)
    by (intros [| c t] Ht; [contradiction | reflexivity]).
  rewrite Hdef; [apply parseInt_toString |].
  intros Hempty. apply (f_equal parseInt) in Hempty.
  rewrite parseInt_toString in Hempty. discriminate Hempty.
Qed.

(** *** What the load effect reads *)

Lemma loadRows_map (settings : gmap string string) :
  Configure.loadRows settings
  = (fun i =>
       {| Configure.id := i;
          Configure.object := orDefault (settings !! tourKey i "_object") "";
          Configure.text := orDefault (settings !! tourKey i "_text") "";
          Configure.position :=
            orDefault (settings !! tourKey i "_position") "right" |})
    <$> seq 0 (iterations (rowCountOf settings)).
Proof.
  unfold Configure.loadRows, Configure.pushLoadedRow.
  rewrite (for_loop_append (fun i => [_])). cbn [app].
  apply flat_map_singleton.
Qed.

Lemma orDefault_Some_empty (v : string) : orDefault (Some v) "" = v.
Proof. destruct v; reflexivity. Qed.

Lemma orDefault_Some_nonempty (v d : string) : v <> "" -> orDefault (Some v) d = v.
Proof. destruct v; [contradiction | reflexivity]. Qed.

(** The rows survive the round trip as soon as no position is empty. *)
Lemma round_trip_rows (existing : gmap string string) (s : Configure.ConfigureState) :
  Forall (fun row => Configure.position row <> "") (Configure.rows s) ->
  Configure.stepOf <$> Configure.loadRows (Configure.handleSave existing s)
  = Configure.stepOf <$> Configure.rows s.
Proof.
  intros Hpos. rewrite loadRows_map, rowCountOf_handleSave.
  cbn [iterations]. rewrite Nat2Z.id.
  apply list_eq. intros i. rewrite !list_lookup_fmap.
  destruct (Configure.rows s !! i) as [row |] eqn:Hrow.
  - assert (Hi : (i < length (Configure.rows s))%nat)
      by (apply lookup_lt_is_Some; eauto).
    rewrite (proj2 (lookup_seq 0 _ i i)) by (split; [reflexivity | exact Hi]).
    assert (Hp : Configure.position row <> "").
    { rewrite Forall_forall in Hpos. apply Hpos.
      apply list_elem_of_lookup. eauto. }
    destruct (lookup_saveRows_row (Configure.rows s) 0 i
                (<["rowCount" := toString (length (Configure.rows s))]>
                   (<["transparency" :=
                        Configure.transparencyToString (Configure.transparency s)]>
                      (<["backgroundColor" := Configure.backgroundColor s]>
                         (<["selectedFont" := Configure.selectedFont s]>
                            (Configure.eraseAll existing)))))
                row Hrow) as (Ho & Ht & Hq).
    cbn [fmap option_fmap option_map Configure.stepOf Configure.object
           Configure.text Configure.position].
    unfold Configure.handleSave. cbn [Nat.add] in Ho, Ht, Hq.
    rewrite Ho, Ht, Hq, !orDefault_Some_empty.
    rewrite (orDefault_Some_nonempty _ _ Hp). reflexivity.
  - rewrite lookup_ge_None_2; [reflexivity |].
    rewrite length_seq. apply lookup_ge_None. exact Hrow.
Qed.

(** C9. Settings round-trip.  A sequence of tour steps (target, text, and
    an anchor among left, right, top and bottom) saved by [handleSave]
    under [rowCount] and the [tour{i}_object], [tour{i}_text] and
    [tour{i}_position] keys, whatever the settings held before, is read
    back by the load effect as the identical ordered sequence. *)
Theorem settings_round_trip (existing : gmap string string)
    (s : Configure.ConfigureState) :
  Forall (fun row => Configure.position row ∈ Spec.anchors) (Configure.rows s) ->
  Configure.stepOf
    <$> Configure.rows (Configure.loadSettings (Configure.handleSave existing s))
  = Configure.stepOf <$> Configure.rows s.
Proof.
  intros Hanchor. cbn [Configure.loadSettings Configure.rows].
  apply round_trip_rows.
  eapply Forall_impl; [exact Hanchor |].
  intros row Hin Hempty. cbn beta in Hin. rewrite Hempty in Hin.
  unfold Spec.anchors in Hin.
  repeat (apply elem_of_cons in Hin; destruct Hin as [Hin | Hin];
          [discriminate Hin |]).
  apply elem_of_nil in Hin. exact Hin.
Qed.

Lemma settings_round_trip_witness :
  Configure.stepOf
    <$> Configure.rows
          (Configure.loadSettings
             (Configure.handleSave Scenario.twoRows Scenario.dialog))
  = [ ("7", "Sales by region", "right");
      ("", "Not yet bound to an object", "top");
      ("1", "The tour itself", "bottom") ].
Proof.
  apply (settings_round_trip Scenario.twoRows Scenario.dialog).
  unfold Scenario.dialog, Scenario.threeRows, Spec.anchors.
  cbn [Configure.rows].
  repeat (apply Forall_cons; split; [cbn; set_solver |]).
  apply Forall_nil. exact I.
Defined.

(** *** What the player reads *)

Lemma readTourItems_filter (objects : list App.DashboardObject)
    (settings : gmap string string) :
  App.readTourItems objects settings
  = Spec.itemOf objects settings
    <$> Spec.playedIndices settings (iterations (rowCountOf settings)).
Proof.
  unfold App.readTourItems, Spec.playedIndices.
  rewrite (for_loop_ext _
             (fun i l =>
                (l ++ (if Spec.complete settings i
                       then [Spec.itemOf objects settings i] else []))%list)).
  - rewrite for_loop_append. cbn [app]. apply flat_map_filter.
  - intros i l. unfold App.pushTourItem, Spec.complete.
    destruct (truthy _ && truthy _); [reflexivity |].
    rewrite app_nil_r. reflexivity.
Qed.




(** ** Removal *)

Lemma handleDeleteRow_fresh (i : nat) (rows : list Configure.Row) :
  i ∉ Configure.id <$> rows -> Configure.handleDeleteRow i rows = rows.
Proof.
  unfold Configure.handleDeleteRow. induction rows as [| r rows IH]; intros Hnin.
  - reflexivity.
  - rewrite fmap_cons, not_elem_of_cons in Hnin. destruct Hnin as [Hne Hnin].
    rewrite filter_cons_True by (intros Heq; apply Hne; symmetry; exact Heq).
    f_equal. apply IH, Hnin.
Qed.

(** While the ids are pairwise distinct, deleting by id removes the row
    of that id and nothing else. *)
Lemma handleDeleteRow_unique (rows : list Configure.Row) (i : nat)
    (row : Configure.Row) :
  NoDup (Configure.id <$> rows) ->
  rows !! i = Some row ->
  Configure.handleDeleteRow (Configure.id row) rows = delete i rows.
Proof.
  revert i. induction rows as [| r rows IH]; intros i Hnodup Hrow; [discriminate |].
  rewrite fmap_cons in Hnodup. apply NoDup_cons in Hnodup.
  destruct Hnodup as [Hfresh Hnodup]. destruct i as [| i].
  - injection Hrow as ->. unfold Configure.handleDeleteRow.
    rewrite filter_cons_False by (intros H; apply H; reflexivity).
    apply (handleDeleteRow_fresh _ _ Hfresh).
  - cbn in Hrow. unfold Configure.handleDeleteRow.
    rewrite filter_cons_True.
    + cbn. f_equal. apply IH; assumption.
    + intros Heq. apply Hfresh. rewrite Heq.
      apply list_elem_of_fmap. exists row. split; [reflexivity |].
      apply list_elem_of_lookup. eauto.
Qed.

(** C8. Single-step removal, evaluated on the dialog that loaded two
    rows, deleted the first one and added a row: the new row takes the
    id [1] the remaining row already has, and the delete button of either
    row then removes both, where the specification asks for exactly one
    step to go. *)
Theorem delete_removes_rows_sharing_an_id :
  let rows :=
    Configure.handleAddRow
      (Configure.handleDeleteRow 0 (Configure.loadRows Scenario.twoRows)) in
  Configure.storeReachable Scenario.twoRows rows /\
  Configure.id <$> rows = [1; 1]%nat /\
  Configure.stepOf <$> rows = [("1", "The tour itself", "bottom"); ("", "", "right")] /\
  forall row : Configure.Row,
    row ∈ rows -> Configure.handleDeleteRow (Configure.id row) rows = [].
Proof.
  cbv zeta. split; [| split; [| split]].
  - eapply Configure.store_step; [| apply Configure.step_add].
    eapply Configure.store_step; [apply Configure.store_loaded |].
    apply (Configure.step_delete (Configure.loadRows Scenario.twoRows)
             {| Configure.id := 0; Configure.object := "7";
                Configure.text := "Sales by region";
                Configure.position := "right" |}).
    vm_compute. left.
  - vm_compute. reflexivity.
  - vm_compute. reflexivity.
  - intros row Hin.
    assert (Hid : Configure.id row = 1%nat).
    { vm_compute in Hin.
      repeat (apply elem_of_cons in Hin; destruct Hin as [-> | Hin];
              [reflexivity |]).
      apply elem_of_nil in Hin. contradiction. }
    rewrite Hid. vm_compute. reflexivity.
Qed.

(** * Further properties of the code *)

(** ** The layout engine *)


Lemma inject_Z_nonneg (z : Z) : (0 <= inject_Z z)%Q <-> (0 <= z)%Z.
Proof. rewrite (Zle_Qle 0 z). reflexivity. Qed.

(** The side boxes of an integer target: the height plus the overlap is
    non-negative exactly when the height is. *)
Lemma overlap_nonneg (th : Z) : (0 <= inject_Z th + 0.1)%Q <-> (0 <= th)%Z.
Proof.
  unfold Qle, Qplus, inject_Z. cbn. lia.
Qed.

(** X1. On integer pixels, the four boxes have non-negative extents, the
    heights of the two side boxes included, exactly when the target lies
    inside the container and its height is not negative; a target that
    sticks out gives a box of negative width or height. *)
Theorem masks_nonnegative_iff_inside (s : App.AppState) (stepIndex : Index)
    (items : list App.TourItem) (item : App.TourItem) (name : string)
    (tx ty tw th cx cy cw ch : Z) :
  at_index items stepIndex = Some item ->
  App.details item = App.Known (Spec.pixelTarget name tx ty tw th) ->
  App.extensionPosition s = Some (Spec.pixelContainer cx cy cw ch) ->
  Forall Spec.pixel [tx; ty; tw; th; cx; cy; cw; ch] ->
  exists (m : App.Positions) (leftW leftH rightW rightH topH bottomH : Q),
    App.boxPositions (App.updateBoxPositions stepIndex items s) = Some m /\
    App.box_width (App.pos_left m) = App.Px (Num leftW) /\
    App.box_height (App.pos_left m) = Num leftH /\
    App.box_width (App.pos_right m) = App.Px (Num rightW) /\
    App.box_height (App.pos_right m) = Num rightH /\
    App.box_height (App.pos_top m) = Num topH /\
    App.box_height (App.pos_bottom m) = Num bottomH /\
    ((0 <= leftW /\ 0 <= leftH /\ 0 <= rightW /\ 0 <= rightH /\
      0 <= topH /\ 0 <= bottomH)%Q <->
     (cx <= tx /\ tx + tw <= cx + cw /\ cy <= ty /\ ty + th <= cy + ch /\
      0 <= th)%Z).
Proof.
  intros Hitem Hdetails Hext _.
  rewrite (updateBoxPositions_layout s stepIndex items item _ Hitem Hext).
  rewrite Hdetails.
  unfold Spec.pixelTarget, Spec.pixelContainer, Spec.target, Spec.container.
  cbn [App.prop App.d_x App.d_y App.d_width App.d_height
       App.ext_x App.ext_y App.ext_width App.ext_height
       App.boxPositions App.setTextVisible App.setTextPosition
       App.setBoxPositions App.maskPositions sub add App.verticalOverlap
       App.pos_left App.pos_right App.pos_top App.pos_bottom
       App.box_width App.box_height App.box_top App.box_left].
  eexists _, _, _, _, _, _, _.
  do 7 (split; [reflexivity |]).
  assert (HrightW : (inject_Z cw - (inject_Z tx - inject_Z cx + inject_Z tw)
                     == inject_Z (cw - ((tx - cx) + tw)))%Q)
    by (rewrite <- inject_Z_sub, inject_Z_plus, <- inject_Z_sub; reflexivity).
  assert (HbottomH : (inject_Z ch - (inject_Z ty - inject_Z cy + inject_Z th)
                      == inject_Z (ch - ((ty - cy) + th)))%Q)
    by (rewrite <- inject_Z_sub, inject_Z_plus, <- inject_Z_sub; reflexivity).
  rewrite HrightW, HbottomH, !inject_Z_sub, !inject_Z_nonneg, overlap_nonneg.
  lia.
Qed.

Lemma masks_nonnegative_iff_inside_witness :
  exists (m : App.Positions) (rightW : Q),
    App.boxPositions
      (App.updateBoxPositions (Idx 0) [Scenario.salesItem]
         (App.setExtensionPosition (Spec.pixelContainer 0 0 250 600)
            App.initialState)) = Some m /\
    App.box_width (App.pos_right m) = App.Px (Num rightW) /\
    ~ (0 <= rightW)%Q.
Proof.
  destruct (masks_nonnegative_iff_inside
              (App.setExtensionPosition (Spec.pixelContainer 0 0 250 600)
                 App.initialState)
              (Idx 0) [Scenario.salesItem] Scenario.salesItem "Sales"
              100 100 200 50 0 0 250 600)
    as (m & lw & lh & rw & rh & tH & bH & Hm & Hl & Hlh & Hr & Hrh & Ht & Hb & Hiff);
    [reflexivity | reflexivity | reflexivity
     | repeat constructor; apply Z.leb_le; reflexivity |].
  exists m, rw. split; [exact Hm |]. split; [exact Hr |].
  intros Hrw. vm_compute in Hm. injection Hm as <-.
  injection Hr as <-. apply Hrw. reflexivity.
Defined.

(** X2. On integer pixels the boxes meet without a gap: the right box
    starts where the target ends and stops at the right edge of the
    container, the side boxes start at the lower edge of the top box, the
    bottom box starts at the lower edge of the target and stops at the
    lower edge of the container, and the side boxes, which are as high as
    each other, reach into the bottom box by a fraction of a pixel. *)
Theorem masks_meet (s : App.AppState) (stepIndex : Index)
    (items : list App.TourItem) (item : App.TourItem) (name : string)
    (tx ty tw th cx cy cw ch : Z) :
  at_index items stepIndex = Some item ->
  App.details item = App.Known (Spec.pixelTarget name tx ty tw th) ->
  App.extensionPosition s = Some (Spec.pixelContainer cx cy cw ch) ->
  Forall Spec.pixel [tx; ty; tw; th; cx; cy; cw; ch] ->
  exists (m : App.Positions) (topH leftW leftT leftH rightL rightW rightT
          bottomT bottomH : Q),
    App.boxPositions (App.updateBoxPositions stepIndex items s) = Some m /\
    App.pos_top m = {| App.box_top := Num 0; App.box_left := Num 0;
                       App.box_width := App.Css "100%";
                       App.box_height := Num topH |} /\
    App.pos_left m = {| App.box_top := Num leftT; App.box_left := Num 0;
                        App.box_width := App.Px (Num leftW);
                        App.box_height := Num leftH |} /\
    App.pos_right m = {| App.box_top := Num rightT; App.box_left := Num rightL;
                         App.box_width := App.Px (Num rightW);
                         App.box_height := Num leftH |} /\
    App.pos_bottom m = {| App.box_top := Num bottomT; App.box_left := Num 0;
                          App.box_width := App.Css "100%";
                          App.box_height := Num bottomH |} /\
    (leftT == topH)%Q /\ (rightT == topH)%Q /\
    (rightL == leftW + inject_Z tw)%Q /\ (rightL + rightW == inject_Z cw)%Q /\
    (bottomT == topH + inject_Z th)%Q /\ (bottomT + bottomH == inject_Z ch)%Q /\
    (bottomT < leftT + leftH)%Q /\ (leftT + leftH < bottomT + 1)%Q.
Proof.
  intros Hitem Hdetails Hext _.
  rewrite (updateBoxPositions_layout s stepIndex items item _ Hitem Hext).
  rewrite Hdetails.
  unfold Spec.pixelTarget, Spec.pixelContainer, Spec.target, Spec.container.
  cbn [App.prop App.d_x App.d_y App.d_width App.d_height
       App.ext_x App.ext_y App.ext_width App.ext_height
       App.boxPositions App.setTextVisible App.setTextPosition
       App.setBoxPositions App.maskPositions sub add App.verticalOverlap
       App.pos_left App.pos_right App.pos_top App.pos_bottom
       App.box_width App.box_height App.box_top App.box_left].
  eexists _, _, _, _, _, _, _, _, _, _.
  do 5 (split; [reflexivity |]).
  do 2 (split; [reflexivity |]).
  do 4 (split; [reflexivity || ring |]).
  assert (Hoverlap : (0 < 0.1)%Q /\ (0.1 < 1)%Q) by (split; reflexivity).
  destruct Hoverlap as [Hpos Hsmall].
  remember 0.1%Q as overlap eqn:Heq. clear Heq.
  split; lra.
Qed.

Lemma masks_meet_witness :
  exists m : App.Positions,
    App.boxPositions
      (App.updateBoxPositions (Idx 0) [Scenario.salesItem]
         (App.setExtensionPosition (Spec.pixelContainer 0 0 800 600)
            App.initialState)) = Some m /\
    App.box_width (App.pos_top m) = App.Css "100%".
Proof.
  destruct (masks_meet
              (App.setExtensionPosition (Spec.pixelContainer 0 0 800 600)
                 App.initialState)
              (Idx 0) [Scenario.salesItem] Scenario.salesItem "Sales"
              100 100 200 50 0 0 800 600)
    as (m & tH & lW & lT & lH & rL & rW & rT & bT & bH & Hm & Htop & _);
    [reflexivity | reflexivity | reflexivity
     | repeat constructor; apply Z.leb_le; reflexivity |].
  exists m. split; [exact Hm |]. rewrite Htop. reflexivity.
Defined.

Lemma textPosition_updateBoxPositions (s : App.AppState) (stepIndex : Index)
    (items : list App.TourItem) (item : App.TourItem) (ext : App.Rect) :
  at_index items stepIndex = Some item ->
  App.extensionPosition s = Some ext ->
  Spec.shows (App.updateBoxPositions stepIndex items s) ext item.
Proof.
  intros Hitem Hext.
  rewrite (updateBoxPositions_layout s stepIndex items item ext Hitem Hext).
  repeat split.
Qed.





(** X5. Every position other than [right], [left] and [top], the empty
    and any unknown string included, places the text box as [bottom]
    does: under the target, one padding below it. *)
Theorem other_anchor_is_bottom (position : string)
    (adjustedX adjustedY width height : Number) :
  position <> "right" -> position <> "left" -> position <> "top" ->
  App.textBoxPosition position adjustedX adjustedY width height
  = App.textBoxPosition "bottom" adjustedX adjustedY width height /\
  App.textBoxPosition position adjustedX adjustedY width height
  = {| App.tb_width := Num 300; App.tb_height := "auto";
       App.tb_top := add (add adjustedY height) (Num 10);
       App.tb_left := adjustedX |}.
Proof.
  intros Hr Hl Ht. unfold App.textBoxPosition.
  rewrite (proj2 (String.eqb_neq position "right") Hr).
  rewrite (proj2 (String.eqb_neq position "left") Hl).
  rewrite (proj2 (String.eqb_neq position "top") Ht).
  split; reflexivity.
Qed.

Lemma other_anchor_is_bottom_witness :
  App.textBoxPosition "above" (Num 100) (Num 100) (Num 200) (Num 50)
  = {| App.tb_width := Num 300; App.tb_height := "auto";
       App.tb_top := add (add (Num 100) (Num 50)) (Num 10);
       App.tb_left := Num 100 |}.
Proof.
  apply (other_anchor_is_bottom "above" (Num 100) (Num 100) (Num 200) (Num 50));
    discriminate.
Defined.

(** ** The player across navigation and re-configuration *)

Lemma extensionPosition_updateBoxPositions (i : Index) (items : list App.TourItem)
    (s : App.AppState) :
  App.extensionPosition (App.updateBoxPositions i items s) = App.extensionPosition s.
Proof.
  unfold App.updateBoxPositions.
  destruct (at_index items i); destruct (App.extensionPosition s) eqn:Hext;
    cbn; rewrite ?Hext; reflexivity.
Qed.

Lemma extensionPosition_load (objects : list App.DashboardObject)
    (settings : gmap string string) (s : App.AppState) :
  App.extensionPosition (App.load objects settings s) = App.extensionPosition s.
Proof.
  unfold App.load, App.layoutEffect.
  destruct (_ && _); [rewrite extensionPosition_updateBoxPositions |]; reflexivity.
Qed.

Lemma at_index_in_range {A : Type} (items : list A) (i : Z) :
  (0 <= i < Z.of_nat (length items))%Z ->
  exists item, at_index items (Idx i) = Some item /\ items !! Z.to_nat i = Some item.
Proof.
  intros Hi. destruct (lookup_lt_is_Some_2 items (Z.to_nat i)) as [item Hitem];
    [lia |].
  exists item. split; [| exact Hitem]. unfold at_index.
  rewrite (proj2 (Z.leb_le 0 i)) by lia. exact Hitem.
Qed.

(** What a state must satisfy for its picture to belong to its current
    step: with the extension position known the layout is that of the
    current item and the text box is visible; without it nothing has been
    laid out and the text box is hidden. *)
Lemma shows_after_layout (s : App.AppState) (idx : Index) (item : App.TourItem) :
  at_index (App.tourItems s) idx = Some item ->
  let s' := App.updateBoxPositions idx (App.tourItems s)
              (App.setCurrentStep idx (App.setTextVisible false s)) in
  forall ext, App.extensionPosition s' = Some ext -> Spec.shows s' ext item.
Proof.
  intros Hitem s' ext Hext. subst s'.
  rewrite extensionPosition_updateBoxPositions in Hext.
  apply textPosition_updateBoxPositions; assumption.
Qed.

Lemma hidden_after_skip (s : App.AppState) (idx : Index) :
  App.extensionPosition s = None ->
  App.boxPositions s = None -> App.textPosition s = None ->
  let s' := App.updateBoxPositions idx (App.tourItems s)
              (App.setCurrentStep idx (App.setTextVisible false s)) in
  App.boxPositions s' = None /\ App.textPosition s' = None /\
  App.textVisible s' = false.
Proof.
  intros Hext Hbox Htext s'. subst s'.
  rewrite updateBoxPositions_skip by (right; exact Hext).
  repeat split; assumption.
Qed.

Lemma live_extension_unknown (s : App.AppState) :
  App.live s -> App.extensionPosition s = None ->
  App.boxPositions s = None /\ App.textPosition s = None /\
  App.textVisible s = false.
Proof.
  assert (Hload : forall objects settings t,
             (App.extensionPosition t = None ->
              App.boxPositions t = None /\ App.textPosition t = None /\
              App.textVisible t = false) ->
             App.extensionPosition (App.load objects settings t) = None ->
             App.boxPositions (App.load objects settings t) = None /\
             App.textPosition (App.load objects settings t) = None /\
             App.textVisible (App.load objects settings t) = false).
  { intros objects settings t IH Hext.
    rewrite extensionPosition_load in Hext. specialize (IH Hext).
    unfold App.load, App.layoutEffect.
    change (App.extensionPosition (App.refreshTourItems objects settings t))
      with (App.extensionPosition t).
    rewrite Hext, andb_false_r. exact IH. }
  induction 1 as [objects settings | s Hlive IH | s Hlive IH | s k Hlive IH Hk
                  | s objects settings Hlive IH]; intros Hext.
  - unfold App.mount in *. destruct (App.findExtensionObject objects).
    + rewrite extensionPosition_load in Hext. discriminate Hext.
    + apply Hload; [| exact Hext]. intros _. repeat split.
  - unfold App.handleNext in *.
    rewrite extensionPosition_updateBoxPositions in Hext.
    destruct (IH Hext) as (Hb & Ht & _). apply hidden_after_skip; assumption.
  - unfold App.handlePrevious in *.
    rewrite extensionPosition_updateBoxPositions in Hext.
    destruct (IH Hext) as (Hb & Ht & _). apply hidden_after_skip; assumption.
  - unfold App.handleStepClick in *.
    rewrite extensionPosition_updateBoxPositions in Hext.
    destruct (IH Hext) as (Hb & Ht & _). apply hidden_after_skip; assumption.
  - apply Hload; assumption.
Qed.

Lemma load_shows_first (objects : list App.DashboardObject)
    (settings : gmap string string) (s : App.AppState) :
  App.tourItems (App.load objects settings s) <> [] ->
  Spec.indexInRange (App.load objects settings s) /\
  forall ext item,
    App.extensionPosition (App.load objects settings s) = Some ext ->
    at_index (App.tourItems (App.load objects settings s))
      (App.currentStep (App.load objects settings s)) = Some item ->
    Spec.shows (App.load objects settings s) ext item.
Proof.
  intros Hne. split.
  - exists 0%Z. rewrite currentStep_load. split; [reflexivity |].
    destruct (App.tourItems (App.load objects settings s)); [contradiction |].
    cbn. lia.
  - intros ext item Hext Hitem.
    rewrite currentStep_load, tourItems_load in Hitem.
    rewrite tourItems_load in Hne. rewrite extensionPosition_load in Hext.
    unfold App.load, App.layoutEffect.
    change (App.tourItems (App.refreshTourItems objects settings s))
      with (App.readTourItems objects settings).
    change (App.extensionPosition (App.refreshTourItems objects settings s))
      with (App.extensionPosition s).
    rewrite Hext.
    destruct (App.readTourItems objects settings) as [| first rest] eqn:Hitems;
      [contradiction |].
    cbn [length Nat.ltb Nat.leb andb].
    rewrite bool_decide_true by eauto.
    apply textPosition_updateBoxPositions; [exact Hitem | exact Hext].
Qed.

Lemma live_index_and_layout (s : App.AppState) :
  App.live s -> App.tourItems s <> [] ->
  Spec.indexInRange s /\
  forall ext item,
    App.extensionPosition s = Some ext ->
    at_index (App.tourItems s) (App.currentStep s) = Some item ->
    Spec.shows s ext item.
Proof.
  induction 1 as [objects settings | s Hlive IH | s Hlive IH | s k Hlive IH Hk
                  | s objects settings Hlive IH]; intros Hne.
  - unfold App.mount in *. apply load_shows_first, Hne.
  - rewrite tourItems_handleNext in Hne. destruct (IH Hne) as [Hidx _].
    split; [apply indexInRange_next, Hidx |].
    intros ext item Hext Hitem.
    rewrite tourItems_handleNext, currentStep_handleNext in Hitem.
    apply (shows_after_layout s _ item Hitem ext Hext).
  - rewrite tourItems_handlePrevious in Hne. destruct (IH Hne) as [Hidx _].
    split; [apply indexInRange_previous, Hidx |].
    intros ext item Hext Hitem.
    rewrite tourItems_handlePrevious, currentStep_handlePrevious in Hitem.
    apply (shows_after_layout s _ item Hitem ext Hext).
  - split.
    + exists (Z.of_nat k). rewrite currentStep_handleStepClick.
      rewrite tourItems_handleStepClick. split; [reflexivity | lia].
    + intros ext item Hext Hitem.
      rewrite tourItems_handleStepClick, currentStep_handleStepClick in Hitem.
      apply (shows_after_layout s _ item Hitem ext Hext).
  - apply load_shows_first, Hne.
Qed.

(** C3 (as the code has it).  PlaybackState index invariant.  The first
    half of the claim holds in every state of a mounted player, whatever
    sequence of next, previous, jump-to-step actions and reloads after the
    configuration dialog it has gone through: if the sequence is not
    empty, the current index is an integer with
    [0 <= currentIndex < sequence.length].  The second half fails.  Mount
    the player on the dashboard of the concrete scenario with its one
    step, then close the configuration dialog on settings that hold no
    step: the sequence is empty and no step is current, the state still
    holds the four boxes laid out for the step shown before, and the
    render, whose colour is the default ["#000000"], paints them as soon
    as the colour function returns for that colour; no indicator and no
    text box is painted. *)
Theorem playback_invariant_fails_after_reconfiguration :
  (forall s : App.AppState,
     App.live s -> (0 < length (App.tourItems s))%nat ->
     exists i : Z,
       App.currentStep s = Idx i /\
       (0 <= i < Z.of_nat (length (App.tourItems s)))%Z) /\
  let s := App.load Scenario.dashboard ∅
             (App.mount Scenario.dashboard Scenario.oneStep) in
  App.live s /\
  App.tourItems s = [] /\
  at_index (App.tourItems s) (App.currentStep s) = None /\
  App.boxPositions s = Some Scenario.computedPositions /\
  App.backgroundColor s = "#000000" /\
  App.backgroundTransparency s = App.TransparencyNum 70 /\
  forall alpha : string -> App.Transparency -> option string,
    is_Some (alpha "#000000" (App.TransparencyNum 70)) ->
    exists v : App.View,
      App.paint alpha s = Some v /\
      App.v_boxes v = Scenario.computedBoxes /\
      App.v_indicators v = 0%nat /\
      App.v_textBox v = None.
Proof.
  split.
  - intros s Hlive Hlen.
    assert (Hne : App.tourItems s <> []).
    { intros Hnil. rewrite Hnil in Hlen. cbn in Hlen. lia. }
    destruct (live_index_and_layout s Hlive Hne) as [Hidx _]. exact Hidx.
  - cbv zeta.
    split; [apply App.live_configure, App.live_mount |].
    do 5 (split; [vm_compute; reflexivity |]).
    intros alpha [c Hc]. exists (App.render (App.load Scenario.dashboard ∅
                           (App.mount Scenario.dashboard Scenario.oneStep))).
    split.
    + set (s := App.load Scenario.dashboard ∅
                  (App.mount Scenario.dashboard Scenario.oneStep)).
      assert (Hbox : App.boxPositions s = Some Scenario.computedPositions)
        by (vm_compute; reflexivity).
      assert (Hcolor : App.backgroundColor s = "#000000")
        by (vm_compute; reflexivity).
      assert (Htransparency : App.backgroundTransparency s = App.TransparencyNum 70)
        by (vm_compute; reflexivity).
      unfold App.paint. rewrite Hbox, Hcolor, Htransparency, Hc. reflexivity.
    + repeat split; vm_compute; reflexivity.
Qed.

Lemma playback_invariant_fails_after_reconfiguration_witness :
  exists v : App.View,
    App.paint Scenario.alphaOfHex
      (App.load Scenario.dashboard ∅
         (App.mount Scenario.dashboard Scenario.oneStep)) = Some v /\
    App.v_boxes v = Scenario.computedBoxes.
Proof.
  destruct playback_invariant_fails_after_reconfiguration as [_ Hreload].
  cbv zeta in Hreload.
  destruct Hreload as (_ & _ & _ & _ & _ & _ & Hpaint).
  destruct (Hpaint Scenario.alphaOfHex) as (v & Hv & Hboxes & _).
  - eexists. reflexivity.
  - exists v. split; assumption.
Defined.

(** X6. Whatever sequence of arrow clicks, indicator clicks and
    re-configurations a mounted player has gone through, if its tour is
    not empty then the current step is an index of the tour, and, once
    the extension position is known, the state holds the four boxes and
    the text box of the current item, with the text box visible.  The
    render then throws, and paints nothing, exactly when the colour
    function throws for the colour and the transparency of the state;
    when it returns, the four boxes and the text box on screen are those
    of the current item, with the text of that item. *)
Theorem live_player_shows_current_step
    (alpha : string -> App.Transparency -> option string) (s : App.AppState) :
  App.live s -> App.tourItems s <> [] ->
  exists (i : Z) (item : App.TourItem),
    App.currentStep s = Idx i /\
    (0 <= i < Z.of_nat (length (App.tourItems s)))%Z /\
    App.tourItems s !! Z.to_nat i = Some item /\
    forall ext : App.Rect,
      App.extensionPosition s = Some ext ->
      Spec.shows s ext item /\
      (App.paint alpha s = None
       <-> alpha (App.backgroundColor s) (App.backgroundTransparency s) = None) /\
      forall v : App.View,
        App.paint alpha s = Some v ->
        App.v_boxes v
        = [("top", App.pos_top (Spec.layoutOf ext item).1);
           ("left", App.pos_left (Spec.layoutOf ext item).1);
           ("right", App.pos_right (Spec.layoutOf ext item).1);
           ("bottom", App.pos_bottom (Spec.layoutOf ext item).1)] /\
        App.v_textBox v
        = Some ((Spec.layoutOf ext item).2, App.text item).
Proof.
  intros Hlive Hne. destruct (live_index_and_layout s Hlive Hne) as [Hidx Hshow].
  destruct Hidx as (i & Hi & Hrange).
  destruct (at_index_in_range (App.tourItems s) i Hrange) as (item & Hat & Hitem).
  exists i, item. do 3 (split; [assumption |]).
  intros ext Hext. rewrite <- Hi in Hat.
  pose proof (Hshow ext item Hext Hat) as Hshows.
  destruct Hshows as (Hbox & Htext & Hvisible).
  destruct (paint_boxes alpha s _ Hbox) as [Hthrows Hpaint].
  split; [repeat split; assumption |]. split; [exact Hthrows |].
  intros v Hv. destruct (Hpaint v Hv) as [-> Hboxes].
  split; [exact Hboxes |].
  unfold App.render. cbn [App.v_textBox].
  rewrite Htext, Hvisible, Hat. reflexivity.
Qed.

Lemma live_player_shows_current_step_witness :
  (exists (i : Z) (item : App.TourItem),
     App.currentStep
       (App.handleNext
          (App.load Scenario.dashboard Scenario.threeSteps
             (App.mount Scenario.dashboard Scenario.oneStep))) = Idx i /\
     (0 <= i < 3)%Z /\ App.text item = "A sheet that was removed") /\
  App.paint Scenario.alphaOfHex
    (App.mount Scenario.dashboard Scenario.oneStepInRed) = None.
Proof.
  split.
  - destruct (live_player_shows_current_step Scenario.alphaOfHex
                (App.handleNext
                   (App.load Scenario.dashboard Scenario.threeSteps
                      (App.mount Scenario.dashboard Scenario.oneStep))))
      as (i & item & Hi & Hrange & Hitem & _).
    + apply App.live_next, App.live_configure, App.live_mount.
    + vm_compute. discriminate.
    + exists i, item. split; [exact Hi |].
      vm_compute in Hi. injection Hi as <-.
      split; [lia |]. vm_compute in Hitem. injection Hitem as <-. reflexivity.
  - destruct (live_player_shows_current_step Scenario.alphaOfHex
                (App.mount Scenario.dashboard Scenario.oneStepInRed))
      as (i & item & _ & _ & _ & Hext).
    + apply App.live_mount.
    + vm_compute. discriminate.
    + destruct (Hext (Spec.container 0 0 800 600)) as (_ & Hthrows & _);
        [vm_compute; reflexivity |].
      apply Hthrows. vm_compute. reflexivity.
Defined.

Lemma goTo_handlers (s : App.AppState) (k : nat) :
  App.handleNext s
  = Spec.goTo (irem (iadd (App.currentStep s) 1) (length (App.tourItems s))) s /\
  App.handlePrevious s
  = Spec.goTo (irem (iadd (iadd (App.currentStep s) (-1))
                       (Z.of_nat (length (App.tourItems s))))
                 (length (App.tourItems s))) s /\
  App.handleStepClick k s = Spec.goTo (Idx (Z.of_nat k)) s.
Proof. repeat split. Qed.

(** The last navigation wins, as long as it lays its step out or nothing
    can be laid out at all. *)
Lemma goTo_goTo (s : App.AppState) (i j : Index) :
  App.extensionPosition s = None \/ is_Some (at_index (App.tourItems s) i) ->
  Spec.goTo i (Spec.goTo j s) = Spec.goTo i s.
Proof.
  intros Hcase. unfold Spec.goTo. rewrite tourItems_updateBoxPositions.
  cbn [App.tourItems App.setCurrentStep App.setTextVisible].
  unfold App.updateBoxPositions.
  cbn [App.extensionPosition App.setCurrentStep App.setTextVisible].
  destruct (App.extensionPosition s) as [ext |] eqn:Hext.
  - destruct Hcase as [Hnone | [item Hitem]]; [discriminate |].
    rewrite Hitem.
    destruct (at_index (App.tourItems s) j); cbn; rewrite ?Hext; reflexivity.
  - destruct (at_index (App.tourItems s) j); cbn; rewrite ?Hext;
      destruct (at_index (App.tourItems s) i); reflexivity.
Qed.

(** Going to the step that is current and on screen changes nothing. *)
Lemma goTo_current (s : App.AppState) :
  App.live s -> App.tourItems s <> [] ->
  Spec.goTo (App.currentStep s) s = s.
Proof.
  intros Hlive Hne. destruct (live_index_and_layout s Hlive Hne) as [Hidx Hshow].
  destruct Hidx as (i & Hi & Hrange).
  destruct (at_index_in_range (App.tourItems s) i Hrange) as (item & Hat & _).
  rewrite <- Hi in Hat. unfold Spec.goTo, App.updateBoxPositions.
  cbn [App.extensionPosition App.setCurrentStep App.setTextVisible].
  rewrite Hat.
  destruct (App.extensionPosition s) as [ext |] eqn:Hext.
  - destruct (Hshow ext item eq_refl Hat) as (Hbox & Htext & Hvisible).
    unfold Spec.layoutOf in Hbox, Htext. cbn [fst snd] in Hbox, Htext.
    destruct s; cbn in *. subst. reflexivity.
  - destruct (live_extension_unknown s Hlive Hext) as (_ & _ & Hvisible).
    destruct s; cbn in *. subst. reflexivity.
Qed.

Lemma next_then_previous_index (i : Z) (n : nat) :
  (0 <= i < Z.of_nat n)%Z ->
  irem (iadd (iadd (irem (iadd (Idx i) 1) n) (-1)) (Z.of_nat n)) n = Idx i /\
  irem (iadd (irem (iadd (iadd (Idx i) (-1)) (Z.of_nat n)) n) 1) n = Idx i.
Proof.
  intros Hi. destruct n as [| m]; [lia |]. cbn [iadd irem].
  set (n := Z.of_nat (S m)) in *. split; f_equal.
  - destruct (Z.eq_dec (i + 1)%Z n) as [Heq | Hne].
    + rewrite Heq, Z.rem_same by lia. rewrite Z.rem_small; lia.
    + rewrite (Z.rem_small (i + 1)%Z) by lia.
      replace (i + 1 + -1 + n)%Z with (i + n)%Z by lia.
      apply rem_wrap. lia.
  - destruct (Z.eq_dec i 0%Z) as [-> | Hne].
    + rewrite (Z.rem_small (0 + -1 + n)%Z) by lia.
      replace (0 + -1 + n + 1)%Z with n by lia. apply Z.rem_same. lia.
    + replace (i + -1 + n)%Z with ((i - 1) + n)%Z by lia.
      rewrite rem_wrap by lia. rewrite Z.rem_small; lia.
Qed.

(** X7. In a mounted player with a non-empty tour the two arrows undo
    each other: previous after next, and next after previous, give back
    the very state, index, boxes, text box and visibility included; and a
    click on the indicator of the current step changes nothing. *)
Theorem arrows_undo_each_other (s : App.AppState) :
  App.live s -> App.tourItems s <> [] ->
  App.handlePrevious (App.handleNext s) = s /\
  App.handleNext (App.handlePrevious s) = s /\
  forall k : nat,
    App.currentStep s = Idx (Z.of_nat k) -> App.handleStepClick k s = s.
Proof.
  intros Hlive Hne.
  destruct (live_index_and_layout s Hlive Hne) as [(i & Hi & Hrange) _].
  destruct (at_index_in_range (App.tourItems s) i Hrange) as (item & Hat & _).
  destruct (next_then_previous_index i _ Hrange) as [Hnp Hpn].
  assert (Hback : forall j, Spec.goTo (Idx i) (Spec.goTo j s) = s).
  { intros j. rewrite goTo_goTo by (right; eauto).
    rewrite <- Hi. apply goTo_current; assumption. }
  split; [| split].
  - destruct (goTo_handlers (App.handleNext s) 0) as (_ & -> & _).
    rewrite currentStep_handleNext, tourItems_handleNext, Hi, Hnp.
    destruct (goTo_handlers s 0) as (-> & _ & _). apply Hback.
  - destruct (goTo_handlers (App.handlePrevious s) 0) as (-> & _ & _).
    rewrite currentStep_handlePrevious, tourItems_handlePrevious, Hi, Hpn.
    destruct (goTo_handlers s 0) as (_ & -> & _). apply Hback.
  - intros k Hk. destruct (goTo_handlers s k) as (_ & _ & ->).
    rewrite <- Hk. apply goTo_current; assumption.
Qed.

Lemma arrows_undo_each_other_witness :
  App.handlePrevious
    (App.handleNext (App.mount Scenario.dashboard Scenario.threeSteps))
  = App.mount Scenario.dashboard Scenario.threeSteps.
Proof.
  destruct (arrows_undo_each_other
              (App.mount Scenario.dashboard Scenario.threeSteps))
    as [Hundo _].
  - apply App.live_mount.
  - vm_compute. discriminate.
  - exact Hundo.
Defined.

Lemma reachable_live (objects : list App.DashboardObject)
    (settings : gmap string string) (s : App.AppState) :
  App.reachable objects settings s ->
  App.live s /\
  App.extensionPosition s = App.extensionPosition (App.mount objects settings) /\
  App.tourItems s = App.readTourItems objects settings.
Proof.
  induction 1 as [| s Hreach (IHlive & IHext & IHitems)
                  | s Hreach (IHlive & IHext & IHitems)
                  | s k Hreach (IHlive & IHext & IHitems) Hk].
  - split; [apply App.live_mount |]. split; [reflexivity |].
    unfold App.mount. apply tourItems_load.
  - split; [apply App.live_next, IHlive |]. unfold App.handleNext.
    rewrite extensionPosition_updateBoxPositions, tourItems_updateBoxPositions.
    split; assumption.
  - split; [apply App.live_previous, IHlive |]. unfold App.handlePrevious.
    rewrite extensionPosition_updateBoxPositions, tourItems_updateBoxPositions.
    split; assumption.
  - split; [apply App.live_jump; assumption |]. unfold App.handleStepClick.
    rewrite extensionPosition_updateBoxPositions, tourItems_updateBoxPositions.
    split; assumption.
Qed.

(** X8. When no object of the dashboard is named ["Tableau Tour"], the
    extension position stays unknown: however the user navigates, no box
    and no text box is ever painted, the frame falls back to the viewport
    size, and only the indicators, one per playable step, are there. *)
Theorem without_extension_object_nothing_is_laid_out
    (objects : list App.DashboardObject) (settings : gmap string string)
    (s : App.AppState) :
  App.findExtensionObject objects = None ->
  App.reachable objects settings s ->
  App.render s
  = {| App.v_frame := (App.Css "100vw", App.Css "100vh");
       App.v_boxes := [];
       App.v_indicators := length (App.readTourItems objects settings);
       App.v_textBox := None |}.
Proof.
  intros Hfind Hreach.
  destruct (reachable_live objects settings s Hreach) as (Hlive & Hext & Hitems).
  unfold App.mount in Hext. rewrite Hfind, extensionPosition_load in Hext.
  cbn in Hext.
  destruct (live_extension_unknown s Hlive Hext) as (Hbox & Htext & _).
  unfold App.render. rewrite Hext, Hbox, Htext, Hitems.
  destruct (at_index _ _); reflexivity.
Qed.

Lemma without_extension_object_nothing_is_laid_out_witness :
  App.render
    (App.handleNext
       (App.mount Scenario.dashboardWithoutExtension Scenario.oneStep))
  = {| App.v_frame := (App.Css "100vw", App.Css "100vh");
       App.v_boxes := [];
       App.v_indicators := 1;
       App.v_textBox := None |}.
Proof.
  apply (without_extension_object_nothing_is_laid_out
           Scenario.dashboardWithoutExtension Scenario.oneStep).
  - reflexivity.
  - apply App.reach_next, App.reach_load.
Defined.

(** X9. In a mounted player with a non-empty tour there is one indicator
    per item and exactly one of them is drawn active: the one of the
    current step. *)
Theorem one_indicator_is_active (s : App.AppState) :
  App.live s -> App.tourItems s <> [] ->
  exists i : nat,
    App.currentStep s = Idx (Z.of_nat i) /\
    (i < length (App.tourItems s))%nat /\
    length (App.indicators s) = length (App.tourItems s) /\
    forall k : nat,
      (k < length (App.tourItems s))%nat ->
      App.indicators s !! k = Some (bool_decide (k = i)).
Proof.
  intros Hlive Hne.
  destruct (live_index_and_layout s Hlive Hne) as [(z & Hz & Hrange) _].
  exists (Z.to_nat z). rewrite Z2Nat.id by lia.
  split; [exact Hz |]. split; [lia |]. unfold App.indicators.
  split; [apply length_imap |].
  intros k Hk. rewrite list_lookup_imap.
  destruct (lookup_lt_is_Some_2 (App.tourItems s) k Hk) as [item ->].
  cbn. rewrite Hz. cbn. f_equal.
  destruct (Z.eqb_spec z (Z.of_nat k)) as [Heq | Hneq].
  - rewrite bool_decide_true by lia. reflexivity.
  - rewrite bool_decide_false by lia. reflexivity.
Qed.

Lemma one_indicator_is_active_witness :
  App.indicators
    (App.handlePrevious (App.mount Scenario.dashboard Scenario.threeSteps))
  !! 2%nat = Some true.
Proof.
  assert (Hitems : length (App.tourItems
                             (App.handlePrevious
                                (App.mount Scenario.dashboard Scenario.threeSteps)))
                   = 3%nat) by (vm_compute; reflexivity).
  destruct (one_indicator_is_active
              (App.handlePrevious
                 (App.mount Scenario.dashboard Scenario.threeSteps)))
    as (i & Hi & Hlt & Hlen & Hk).
  - apply App.live_previous, App.live_mount.
  - vm_compute. discriminate.
  - assert (Hcur : App.currentStep
                     (App.handlePrevious
                        (App.mount Scenario.dashboard Scenario.threeSteps))
                   = Idx 2) by (vm_compute; reflexivity).
    rewrite Hcur in Hi. injection Hi as Hi.
    rewrite (Hk 2%nat) by (rewrite Hitems; lia).
    rewrite bool_decide_true by lia. reflexivity.
Defined.

(** ** What [refreshTourItems] resolves *)

Lemma objectDetailsMap_fold (objects : list App.DashboardObject)
    (acc : gmap string App.ObjectDetails) (i : string) :
  match fold_left (fun acc obj => <[App.obj_id obj := App.detailsOf obj]> acc)
          objects acc !! i with
  | Some d =>
      (exists obj, obj ∈ objects /\ App.obj_id obj = i /\ d = App.detailsOf obj)
      \/ ((forall obj, obj ∈ objects -> App.obj_id obj <> i) /\ acc !! i = Some d)
  | None => (forall obj, obj ∈ objects -> App.obj_id obj <> i) /\ acc !! i = None
  end.
Proof.
  revert acc. induction objects as [| o objects IH]; intros acc; cbn [fold_left].
  - destruct (acc !! i) eqn:Hacc.
    + right. split; [| reflexivity]. intros obj Hin. apply elem_of_nil in Hin.
      contradiction.
    + split; [| reflexivity]. intros obj Hin. apply elem_of_nil in Hin.
      contradiction.
  - specialize (IH (<[App.obj_id o := App.detailsOf o]> acc)).
    destruct (fold_left _ objects _ !! i) as [d |].
    + destruct IH as [(obj & Hin & Hid & Hd) | [Hnone Hacc]].
      * left. exists obj. split; [right; exact Hin | split; assumption].
      * destruct (decide (App.obj_id o = i)) as [Heq | Hne].
        -- left. exists o. split; [left |]. split; [exact Heq |].
           rewrite Heq, lookup_insert_eq in Hacc. congruence.
        -- right. rewrite lookup_insert_ne in Hacc by exact Hne.
           split; [| exact Hacc]. intros obj Hin.
           apply elem_of_cons in Hin. destruct Hin as [-> | Hin]; auto.
    + destruct IH as [Hnone Hacc].
      destruct (decide (App.obj_id o = i)) as [Heq | Hne].
      * rewrite Heq, lookup_insert_eq in Hacc. discriminate Hacc.
      * rewrite lookup_insert_ne in Hacc by exact Hne.
        split; [| exact Hacc]. intros obj Hin.
        apply elem_of_cons in Hin. destruct Hin as [-> | Hin]; auto.
Qed.

Lemma orZero_finite (n : Number) : Spec.finite (orZero n).
Proof.
  destruct n as [q |]; cbn; [destruct (Qeq_bool q 0) |]; eexists; reflexivity.
Qed.

Lemma truthy_Some (v : option string) :
  truthy v = true -> exists t, v = Some t /\ t <> "".
Proof.
  destruct v as [[| c t] |]; try discriminate. intros _.
  eexists. split; [reflexivity | discriminate].
Qed.

(** X10. Every item the player holds after a load has a non-empty target
    id and a non-empty text.  Its details are those of a dashboard object
    with that id, with four finite coordinates (a coordinate the host
    reports as [0], [NaN] or not at all counts as [0]); or they are the
    empty object, and then no object of the dashboard has that id. *)
Theorem loaded_items_are_resolved_or_unknown
    (objects : list App.DashboardObject) (settings : gmap string string)
    (s : App.AppState) (item : App.TourItem) :
  item ∈ App.tourItems (App.load objects settings s) ->
  App.objectId item <> "" /\ App.text item <> "" /\
  ((exists obj : App.DashboardObject,
       obj ∈ objects /\ App.obj_id obj = App.objectId item /\
       App.details item = App.Known (App.detailsOf obj) /\
       Spec.finite (App.prop App.d_x (App.details item)) /\
       Spec.finite (App.prop App.d_y (App.details item)) /\
       Spec.finite (App.prop App.d_width (App.details item)) /\
       Spec.finite (App.prop App.d_height (App.details item)))
   \/ (App.details item = App.EmptyObject /\
       forall obj, obj ∈ objects -> App.obj_id obj <> App.objectId item)).
Proof.
  rewrite tourItems_load, readTourItems_filter. intros Hin.
  apply list_elem_of_fmap in Hin. destruct Hin as (i & -> & Hi).
  unfold Spec.playedIndices in Hi. apply list_elem_of_In, filter_In in Hi.
  destruct Hi as [_ Hcomplete]. unfold Spec.complete in Hcomplete.
  apply andb_true_iff in Hcomplete. destruct Hcomplete as [Hobject Htext].
  destruct (truthy_Some _ Hobject) as (o & Ho & Hone).
  destruct (truthy_Some _ Htext) as (t & Ht & Htne).
  unfold Spec.itemOf. cbn [App.objectId App.text App.details].
  rewrite Ho, Ht. unfold default. cbn [from_option id].
  do 2 (split; [assumption |]).
  pose proof (objectDetailsMap_fold objects ∅ o) as Hmap.
  fold (App.objectDetailsMap objects) in Hmap.
  destruct (App.objectDetailsMap objects !! o) as [d |] eqn:Hlook;
    rewrite ?Hlook; cbn [from_option].
  - left. destruct Hmap as [(obj & Hin & Hid & ->) | [_ Hempty]].
    + exists obj. do 3 (split; [assumption || reflexivity |]).
      cbn. repeat split; apply orZero_finite.
    + rewrite lookup_empty in Hempty. discriminate Hempty.
  - right. destruct Hmap as [Hnone _]. split; [reflexivity | exact Hnone].
Qed.

Lemma loaded_items_are_resolved_or_unknown_witness :
  App.objectId Scenario.salesItem <> "" /\ App.text Scenario.salesItem <> "".
Proof.
  destruct (loaded_items_are_resolved_or_unknown Scenario.dashboard
              Scenario.oneStep App.initialState Scenario.salesItem)
    as (Hid & Htext & _).
  - vm_compute. left.
  - split; assumption.
Defined.

(** ** The font effect *)

Lemma spaceless_nil : Spec.spaceless "".
Proof. intros [| c a] b H; discriminate H. Qed.

Lemma spaceless_cons (c : ascii) (s : string) :
  c <> " "%char -> Spec.spaceless s -> Spec.spaceless (String c s).
Proof.
  intros Hc Hs [| c' a] b H; cbn in H; injection H as Hhead Htail.
  - contradiction.
  - exact (Hs a b Htail).
Qed.

Lemma spaceless_app (s t : string) :
  Spec.spaceless s -> Spec.spaceless t -> Spec.spaceless (s ++ t).
Proof.
  intros Hs Ht. induction s as [| c s IH]; [exact Ht |].
  cbn. apply spaceless_cons.
  - intros ->. apply (Hs "" s). reflexivity.
  - apply IH. intros a b H. apply (Hs (String c a) b). cbn. rewrite H.
    reflexivity.
Qed.

Lemma replaceSpaces_spaceless (font : string) :
  Spec.spaceless (App.replaceSpaces font).
Proof.
  induction font as [| c font IH]; [apply spaceless_nil |].
  cbn [App.replaceSpaces]. apply spaceless_cons; [| exact IH].
  destruct (Ascii.eqb_spec c " "); [discriminate | assumption].
Qed.

(** X11. The stylesheet link of the font effect: there is none for the
    empty font name; otherwise its address holds no space, every space of
    the font name having become a [+], and the name keeps its length. *)
Theorem font_link_has_no_space (font : string) :
  (App.fontHref font = None <-> font = "") /\
  String.length (App.replaceSpaces font) = String.length font /\
  forall href : string, App.fontHref font = Some href -> Spec.spaceless href.
Proof.
  split; [| split].
  - destruct font; cbn; split; congruence.
  - induction font as [| c font IH]; cbn; [| rewrite IH]; reflexivity.
  - intros href Hhref. destruct font as [| c font]; [discriminate |].
    injection Hhref as <-.
    apply spaceless_app; [| apply spaceless_app].
    + repeat (apply spaceless_cons; [discriminate |]). apply spaceless_nil.
    + apply (replaceSpaces_spaceless (String c font)).
    + repeat (apply spaceless_cons; [discriminate |]). apply spaceless_nil.
Qed.

Lemma font_link_has_no_space_witness :
  App.fontHref "Source Sans Pro"
  = Some "https://fonts.googleapis.com/css2?family=Source+Sans+Pro:wght@400;700&display=swap"
  /\ Spec.spaceless
       "https://fonts.googleapis.com/css2?family=Source+Sans+Pro:wght@400;700&display=swap".
Proof.
  split; [reflexivity |].
  apply (font_link_has_no_space "Source Sans Pro"). reflexivity.
Defined.

(** ** What [handleSave] leaves in the settings *)

Lemma not_tourKey (k : string) :
  k ∈ ["selectedFont"; "backgroundColor"; "transparency"; "rowCount"] ->
  forall (j : nat) (a : string), k <> tourKey j a.
Proof.
  intros Hk j a Heq. destruct (tourKey_head j a) as [rest Hrest].
  rewrite Hrest in Heq.
  repeat (apply elem_of_cons in Hk; destruct Hk as [-> | Hk];
          [discriminate Heq |]).
  apply elem_of_nil in Hk. exact Hk.
Qed.

Lemma lookup_handleSave_theme (existing : gmap string string)
    (s : Configure.ConfigureState) :
  Configure.handleSave existing s !! "selectedFont"
    = Some (Configure.selectedFont s) /\
  Configure.handleSave existing s !! "backgroundColor"
    = Some (Configure.backgroundColor s) /\
  Configure.handleSave existing s !! "transparency"
    = Some (Configure.transparencyToString (Configure.transparency s)).
Proof.
  unfold Configure.handleSave.
  rewrite !lookup_saveRows_other
    by (intros j a _; apply not_tourKey; set_solver).
  repeat split.
  - rewrite !lookup_insert_ne by discriminate. apply lookup_insert_eq.
  - rewrite !lookup_insert_ne by discriminate. apply lookup_insert_eq.
  - rewrite !lookup_insert_ne by discriminate. apply lookup_insert_eq.
Qed.

Lemma lookup_saveRows_Some (rows : list Configure.Row) (index : nat)
    (settings : gmap string string) (k v : string) :
  Configure.saveRows rows index settings !! k = Some v ->
  (exists i : nat,
      (i < length rows)%nat /\
      k ∈ [tourKey (index + i) "_object"; tourKey (index + i) "_text";
           tourKey (index + i) "_position"])
  \/ settings !! k = Some v.
Proof.
  revert index settings. induction rows as [| row rows IH];
    intros index settings Hk; [right; exact Hk |].
  cbn [Configure.saveRows] in Hk. apply IH in Hk.
  destruct Hk as [(i & Hi & Hin) | Hk].
  - left. exists (S i). split; [cbn; lia |].
    replace (index + S i)%nat with (S index + i)%nat by lia. exact Hin.
  - rewrite !lookup_insert in Hk.
    repeat (case_decide as Hkey;
            [left; exists 0%nat; rewrite Nat.add_0_r;
             split; [cbn; lia | rewrite <- Hkey; set_solver] | clear Hkey]).
    right. exact Hk.
Qed.

(** X12. [handleSave] starts from a clean slate: the settings it leaves
    do not depend on the settings held before, and they hold nothing but
    the four general keys and the three keys of each row, so that a tour
    that got shorter leaves no key of a dropped step behind. *)
Theorem save_forgets_previous_settings (existing : gmap string string)
    (s : Configure.ConfigureState) :
  Configure.handleSave existing s = Configure.handleSave ∅ s /\
  forall k v : string,
    Configure.handleSave existing s !! k = Some v ->
    k ∈ ["selectedFont"; "backgroundColor"; "transparency"; "rowCount"]
    \/ exists i : nat,
         (i < length (Configure.rows s))%nat /\
         k ∈ [tourKey i "_object"; tourKey i "_text"; tourKey i "_position"].
Proof.
  split.
  - unfold Configure.handleSave. rewrite !eraseAll_empty. reflexivity.
  - intros k v Hk. unfold Configure.handleSave in Hk.
    apply lookup_saveRows_Some in Hk. destruct Hk as [(i & Hi & Hin) | Hk].
    + right. exists i. split; assumption.
    + left. rewrite eraseAll_empty in Hk. rewrite !lookup_insert in Hk.
      repeat (case_decide as Hkey; [rewrite <- Hkey; set_solver | clear Hkey]).
      rewrite lookup_empty in Hk. discriminate Hk.
Qed.

Lemma save_forgets_previous_settings_witness :
  Configure.handleSave Scenario.threeSteps Configure.initialState
    !! "tour2_text" = None.
Proof.
  destruct (save_forgets_previous_settings Scenario.threeSteps
              Configure.initialState) as [_ Hkeys].
  destruct (Configure.handleSave Scenario.threeSteps Configure.initialState
              !! "tour2_text") as [v |] eqn:Hlook; [| reflexivity].
  exfalso. destruct (Hkeys _ _ Hlook) as [Hin | (i & Hi & _)].
  - repeat (apply elem_of_cons in Hin; destruct Hin as [Hin | Hin];
            [discriminate Hin |]).
    apply elem_of_nil in Hin. exact Hin.
  - cbn in Hi. lia.
Defined.

(** ** The general settings through a save *)

Lemma parse_digits_toString (n : nat) :
  parse_digits (toString n) None = Some (Z.of_nat n).
Proof.
  unfold toString. rewrite parse_digits_of_uint_start by apply to_uint_nonnil.
  rewrite Unsigned.of_to. reflexivity.
Qed.

Lemma toString_nonempty (n : nat) : toString n <> "".
Proof.
  intros H. apply (f_equal parseInt) in H. rewrite parseInt_toString in H.
  discriminate H.
Qed.

(** [parseInt] reads back the decimal digits of every integer, negative
    ones included. *)
Lemma parseInt_minus (r : string) :
  parseInt (String "-" r)
  = match parse_digits r None with
    | Some v => Idx (- v)
    | None => IdxNaN
    end.
Proof. reflexivity. Qed.

Lemma parseInt_Z_toString (z : Z) : parseInt (Z_toString z) = Idx z.
Proof.
  unfold Z_toString. destruct (Z.ltb_spec z 0) as [Hneg | Hpos].
  - rewrite parseInt_minus, parse_digits_toString. f_equal. lia.
  - rewrite parseInt_toString. f_equal. lia.
Qed.

Lemma Z_toString_nonempty (z : Z) : Z_toString z <> "".
Proof.
  intros H. apply (f_equal parseInt) in H. rewrite parseInt_Z_toString in H.
  discriminate H.
Qed.

(** X13. The general settings survive a save and a re-opening of the
    dialog: the font and the colour come back unless they were empty, in
    which case the defaults ["Roboto"] and ["#f9f9f9"] take their place;
    a transparency that is a safe integer (or [NaN]) comes back as it
    was, and the empty transparency field comes back as [NaN]. *)
Theorem general_settings_round_trip (existing : gmap string string)
    (s : Configure.ConfigureState) :
  Spec.safeTransparency (Configure.transparency s) ->
  let reopened := Configure.loadSettings (Configure.handleSave existing s) in
  Configure.selectedFont reopened
  = (if decide (Configure.selectedFont s = "") then "Roboto"
     else Configure.selectedFont s) /\
  Configure.backgroundColor reopened
  = (if decide (Configure.backgroundColor s = "") then "#f9f9f9"
     else Configure.backgroundColor s) /\
  Configure.transparency reopened
  = match Configure.transparency s with
    | Configure.TNumber n => Configure.TNumber n
    | Configure.TEmptyString => Configure.TNumber IdxNaN
    end.
Proof.
  intros _. cbv zeta. unfold Configure.loadSettings.
  cbn [Configure.selectedFont Configure.backgroundColor Configure.transparency].
  destruct (lookup_handleSave_theme existing s) as (-> & -> & ->).
  split; [| split].
  - destruct (Configure.selectedFont s); reflexivity.
  - destruct (Configure.backgroundColor s); reflexivity.
  - destruct (Configure.transparency s) as [[z |] |]; cbn;
      [rewrite parseInt_Z_toString | |]; reflexivity.
Qed.

Lemma general_settings_round_trip_witness :
  let reopened :=
    Configure.loadSettings (Configure.handleSave Scenario.twoRows Scenario.dialog) in
  Configure.selectedFont reopened = "Lato" /\
  Configure.backgroundColor reopened = "#202020" /\
  Configure.transparency reopened = Configure.TNumber (Idx 55).
Proof.
  apply (general_settings_round_trip Scenario.twoRows Scenario.dialog).
  intros z [= <-]. apply Z.leb_le. reflexivity.
Defined.

Lemma theme_load (objects : list App.DashboardObject)
    (settings : gmap string string) (s : App.AppState) :
  App.selectedFont (App.load objects settings s)
  = orDefault (settings !! "selectedFont") "Roboto" /\
  App.backgroundColor (App.load objects settings s)
  = orDefault (settings !! "backgroundColor") "#000000" /\
  App.backgroundTransparency (App.load objects settings s)
  = (if truthy (settings !! "transparency")
     then App.TransparencyStr (default "" (settings !! "transparency"))
     else App.TransparencyNum 70).
Proof.
  unfold App.load, App.layoutEffect.
  destruct (_ && _); [| repeat split].
  unfold App.updateBoxPositions.
  destruct (at_index _ _); [| repeat split].
  destruct (App.extensionPosition (App.refreshTourItems objects settings s));
    repeat split.
Qed.

(** X14. The player picks up what the dialog saved: after the dialog is
    closed with Save and the player has refreshed, its font and colour
    are those of the dialog (["Roboto"] and ["#000000"] when they were
    empty) and its transparency is the decimal string of the dialog's
    number, that number being a safe integer; for an empty transparency
    field the player falls back to [70]. *)
Theorem player_uses_saved_theme (objects : list App.DashboardObject)
    (existing : gmap string string) (d : Configure.ConfigureState)
    (s : App.AppState) :
  Spec.safeTransparency (Configure.transparency d) ->
  let s' := App.load objects (Configure.handleSave existing d) s in
  App.selectedFont s'
  = (if decide (Configure.selectedFont d = "") then "Roboto"
     else Configure.selectedFont d) /\
  App.backgroundColor s'
  = (if decide (Configure.backgroundColor d = "") then "#000000"
     else Configure.backgroundColor d) /\
  App.backgroundTransparency s'
  = match Configure.transparency d with
    | Configure.TNumber (Idx z) => App.TransparencyStr (Z_toString z)
    | Configure.TNumber IdxNaN => App.TransparencyStr "NaN"
    | Configure.TEmptyString => App.TransparencyNum 70
    end.
Proof.
  intros _. cbv zeta.
  destruct (theme_load objects (Configure.handleSave existing d) s)
    as (-> & -> & ->).
  destruct (lookup_handleSave_theme existing d) as (-> & -> & ->).
  split; [| split].
  - destruct (Configure.selectedFont d); reflexivity.
  - destruct (Configure.backgroundColor d); reflexivity.
  - destruct (Configure.transparency d) as [[z |] |]; cbn; try reflexivity.
    pose proof (Z_toString_nonempty z) as Hne.
    destruct (Z_toString z); [contradiction | reflexivity].
Qed.

Lemma player_uses_saved_theme_witness :
  let s' := App.load Scenario.dashboard
              (Configure.handleSave Scenario.twoRows Scenario.dialog)
              (App.mount Scenario.dashboard Scenario.oneStep) in
  App.selectedFont s' = "Lato" /\
  App.backgroundColor s' = "#202020" /\
  App.backgroundTransparency s' = App.TransparencyStr "55".
Proof.
  apply (player_uses_saved_theme Scenario.dashboard Scenario.twoRows
           Scenario.dialog (App.mount Scenario.dashboard Scenario.oneStep)).
  intros z [= <-]. apply Z.leb_le. reflexivity.
Defined.

(** ** From the dialog to the player *)

Lemma truthy_Some_eqb (v : string) : truthy (Some v) = negb (String.eqb v "").
Proof. destruct v; reflexivity. Qed.

Lemma played_of_rows (objects : list App.DashboardObject)
    (settings : gmap string string) (rows : list Configure.Row) (start : nat) :
  (forall i row,
      rows !! i = Some row ->
      settings !! tourKey (start + i) "_object" = Some (Configure.object row) /\
      settings !! tourKey (start + i) "_text" = Some (Configure.text row) /\
      settings !! tourKey (start + i) "_position" = Some (Configure.position row)) ->
  Forall (fun row => Configure.position row <> "") rows ->
  (fun item => (App.objectId item, App.text item, App.position item))
    <$> (Spec.itemOf objects settings
           <$> List.filter (Spec.complete settings) (seq start (length rows)))
  = Configure.stepOf <$> List.filter Spec.playable rows.
Proof.
  revert start. induction rows as [| row rows IH]; intros start Hkeys Hpos;
    [reflexivity |].
  apply Forall_cons in Hpos. destruct Hpos as [Hp Hpos].
  destruct (Hkeys 0%nat row eq_refl) as (Ho & Ht & Hq).
  rewrite Nat.add_0_r in Ho, Ht, Hq.
  assert (Hrest := IH (S start)
                     (fun i r Hr =>
                        eq_rect _ (fun n =>
                          settings !! tourKey n "_object" = Some (Configure.object r) /\
                          settings !! tourKey n "_text" = Some (Configure.text r) /\
                          settings !! tourKey n "_position"
                            = Some (Configure.position r))
                          (Hkeys (S i) r Hr) _ (Nat.add_succ_r start i))
                     Hpos).
  cbn [length seq List.filter].
  assert (Hc : Spec.complete settings start = Spec.playable row).
  { unfold Spec.complete, Spec.playable.
    rewrite Ho, Ht, !truthy_Some_eqb. reflexivity. }
  rewrite Hc. destruct (Spec.playable row); [| exact Hrest].
  rewrite !fmap_cons, Hrest. f_equal.
  unfold Spec.itemOf, Configure.stepOf.
  cbn [App.objectId App.text App.position].
  rewrite Ho, Ht, Hq, (orDefault_Some_nonempty _ _ Hp). reflexivity.
Qed.

(** X15. What is saved is what is played: after the dialog is closed with
    Save and the player has refreshed, its tour consists of the rows of
    the dialog that have both an object and a text, in the order of the
    dialog and with their object id, text and position; the rows that
    lack one of the two are left out. *)
Theorem saved_rows_are_played (objects : list App.DashboardObject)
    (existing : gmap string string) (d : Configure.ConfigureState)
    (s : App.AppState) :
  Forall (fun row => Configure.position row <> "") (Configure.rows d) ->
  (fun item => (App.objectId item, App.text item, App.position item))
    <$> App.tourItems (App.load objects (Configure.handleSave existing d) s)
  = Configure.stepOf <$> List.filter Spec.playable (Configure.rows d).
Proof.
  intros Hpos.
  rewrite tourItems_load, readTourItems_filter, rowCountOf_handleSave.
  cbn [iterations]. rewrite Nat2Z.id. unfold Spec.playedIndices.
  apply played_of_rows; [| exact Hpos].
  intros i row Hrow. unfold Configure.handleSave.
  apply (lookup_saveRows_row (Configure.rows d) 0 i _ row Hrow).
Qed.

Lemma saved_rows_are_played_witness :
  (fun item => (App.objectId item, App.text item, App.position item))
    <$> App.tourItems
          (App.load Scenario.dashboard
             (Configure.handleSave Scenario.threeSteps Scenario.dialog)
             (App.mount Scenario.dashboard Scenario.threeSteps))
  = [("7", "Sales by region", "right"); ("1", "The tour itself", "bottom")].
Proof.
  apply (saved_rows_are_played Scenario.dashboard Scenario.threeSteps
           Scenario.dialog).
  unfold Scenario.dialog, Scenario.threeRows. cbn [Configure.rows].
  repeat (apply Forall_cons; split; [discriminate |]).
  apply Forall_nil. exact I.
Defined.

(** ** The transparency field *)

Lemma handleTransparencyChange_cases (value : string)
    (t : Configure.TransparencyInput) :
  Configure.handleTransparencyChange value t = t \/
  Spec.percentage (Configure.handleTransparencyChange value t).
Proof.
  unfold Configure.handleTransparencyChange.
  destruct value as [| c value]; [right; left; reflexivity |].
  destruct (parseInt (String c value)) as [n |]; [| left; reflexivity].
  destruct (0 <=? n)%Z eqn:H0; [| left; reflexivity].
  destruct (n <=? 100)%Z eqn:H100; [| left; reflexivity].
  right. right. exists n. split; [reflexivity |].
  apply Z.leb_le in H0, H100. lia.
Qed.

(** X16. Whatever is typed into the transparency field, one change after
    the other, a transparency that is empty or an integer from 0 to 100
    stays so: a value that does not start with such an integer is
    ignored, the empty field is kept as empty, and a number followed by
    other characters is taken for the number. *)
Theorem transparency_stays_a_percentage (values : list string)
    (t : Configure.TransparencyInput) :
  Spec.percentage t ->
  Spec.percentage
    (fold_left (fun t value => Configure.handleTransparencyChange value t)
       values t).
Proof.
  revert t. induction values as [| value values IH]; intros t Ht; [exact Ht |].
  cbn [fold_left]. apply IH.
  destruct (handleTransparencyChange_cases value t) as [-> | H]; assumption.
Qed.

Lemma transparency_stays_a_percentage_witness :
  fold_left (fun t value => Configure.handleTransparencyChange value t)
    ["150"; "-3"; "42%"; "x"]
    (Configure.transparency Configure.initialState)
  = Configure.TNumber (Idx 42)
  /\ Spec.percentage
       (fold_left (fun t value => Configure.handleTransparencyChange value t)
          ["150"; "-3"; "42%"; "x"]
          (Configure.transparency Configure.initialState)).
Proof.
  split; [reflexivity |].
  apply (transparency_stays_a_percentage ["150"; "-3"; "42%"; "x"]).
  right. exists 70%Z. split; [reflexivity | lia].
Defined.

(** ** The rows under the handlers of the dialog *)

Lemma update_by_id (f : Configure.Row -> Configure.Row)
    (rows : list Configure.Row) (i : nat) (row : Configure.Row) :
  NoDup (Configure.id <$> rows) ->
  rows !! i = Some row ->
  (fun r => if decide (Configure.id r = Configure.id row) then f r else r)
    <$> rows
  = <[i := f row]> rows.
Proof.
  intros Hnodup Hrow. apply list_eq. intros j.
  rewrite list_lookup_fmap, list_lookup_insert.
  destruct (decide (i = j /\ (i < length rows)%nat)) as [[<- _] | Hne].
  - rewrite Hrow. cbn. rewrite decide_True by reflexivity. reflexivity.
  - destruct (rows !! j) as [r |] eqn:Hr; [| reflexivity]. cbn.
    destruct (decide (Configure.id r = Configure.id row)) as [Heq | _];
      [| reflexivity].
    exfalso. apply Hne. split.
    + apply (NoDup_lookup (Configure.id <$> rows) i j (Configure.id row) Hnodup).
      * rewrite list_lookup_fmap, Hrow. reflexivity.
      * rewrite list_lookup_fmap, Hr. cbn. rewrite Heq. reflexivity.
    + apply lookup_lt_is_Some. eauto.
Qed.

(** X17. While the ids of the rows are pairwise distinct, typing into a
    field of a row changes that field of that row and nothing else: the
    list keeps its length, its order and its ids, and every other row and
    every other field is as before. *)
Theorem edit_changes_one_field (rows : list Configure.Row) (i : nat)
    (row : Configure.Row) (value : string) :
  NoDup (Configure.id <$> rows) ->
  rows !! i = Some row ->
  Configure.handleObjectChange (Configure.id row) value rows
  = <[i := {| Configure.id := Configure.id row; Configure.object := value;
              Configure.text := Configure.text row;
              Configure.position := Configure.position row |}]> rows /\
  Configure.handleTextChange (Configure.id row) value rows
  = <[i := {| Configure.id := Configure.id row;
              Configure.object := Configure.object row;
              Configure.text := value;
              Configure.position := Configure.position row |}]> rows /\
  Configure.handlePositionChange (Configure.id row) value rows
  = <[i := {| Configure.id := Configure.id row;
              Configure.object := Configure.object row;
              Configure.text := Configure.text row;
              Configure.position := value |}]> rows.
Proof.
  intros Hnodup Hrow.
  unfold Configure.handleObjectChange, Configure.handleTextChange,
    Configure.handlePositionChange.
  repeat split.
  - apply (update_by_id
             (fun r => {| Configure.id := Configure.id r; Configure.object := value;
                          Configure.text := Configure.text r;
                          Configure.position := Configure.position r |})
             rows i row Hnodup Hrow).
  - apply (update_by_id
             (fun r => {| Configure.id := Configure.id r;
                          Configure.object := Configure.object r;
                          Configure.text := value;
                          Configure.position := Configure.position r |})
             rows i row Hnodup Hrow).
  - apply (update_by_id
             (fun r => {| Configure.id := Configure.id r;
                          Configure.object := Configure.object r;
                          Configure.text := Configure.text r;
                          Configure.position := value |})
             rows i row Hnodup Hrow).
Qed.

Lemma edit_changes_one_field_witness :
  Configure.stepOf
    <$> Configure.handleTextChange 1 "Bound later" Scenario.threeRows
  = [("7", "Sales by region", "right"); ("", "Bound later", "top");
     ("1", "The tour itself", "bottom")].
Proof.
  destruct (edit_changes_one_field Scenario.threeRows 1
              {| Configure.id := 1; Configure.object := "";
                 Configure.text := "Not yet bound to an object";
                 Configure.position := "top" |} "Bound later")
    as (_ & Htext & _).
  - apply (bool_decide_unpack _). vm_compute. reflexivity.
  - reflexivity.
  - cbn [Configure.id] in Htext. rewrite Htext. reflexivity.
Defined.

Lemma swapRows_adjacent_inv (lower : Z) (rows rows' : list Configure.Row) :
  Configure.swapRows lower (lower + 1) rows = Some rows' ->
  exists (k : nat) (a b : Configure.Row),
    lower = Z.of_nat k /\ rows !! k = Some a /\ rows !! S k = Some b /\
    rows' = <[S k := a]> (<[k := b]> rows).
Proof.
  unfold Configure.swapRows. intros H.
  destruct (0 <=? lower)%Z eqn:Hlow; [| discriminate H].
  apply Z.leb_le in Hlow.
  destruct (0 <=? lower + 1)%Z; [| discriminate H]. cbn [andb] in H.
  replace (Z.to_nat (lower + 1)) with (S (Z.to_nat lower)) in H by lia.
  destruct (rows !! Z.to_nat lower) as [a |] eqn:Ha; [| discriminate H].
  destruct (rows !! S (Z.to_nat lower)) as [b |] eqn:Hb; [| discriminate H].
  injection H as <-. exists (Z.to_nat lower), a, b.
  repeat split; try assumption. lia.
Qed.

Lemma swap_adjacent_perm (rows : list Configure.Row) (k : nat)
    (a b : Configure.Row) :
  rows !! k = Some a -> rows !! S k = Some b ->
  <[S k := a]> (<[k := b]> rows) ≡ₚ rows.
Proof.
  revert rows. induction k as [| k IH]; intros rows Ha Hb.
  - destruct rows as [| x [| y rows]]; try discriminate.
    injection Ha as ->. injection Hb as ->. cbn. apply perm_swap.
  - destruct rows as [| x rows]; [discriminate |].
    cbn in Ha, Hb |- *. apply perm_skip. apply IH; assumption.
Qed.

Lemma swap_adjacent_others (rows : list Configure.Row) (k j : nat)
    (a b : Configure.Row) :
  j <> k -> j <> S k -> <[S k := a]> (<[k := b]> rows) !! j = rows !! j.
Proof.
  intros Hk HSk. rewrite !list_lookup_insert_ne by lia. reflexivity.
Qed.

Lemma handleMoveUp_swap (rows rows' : list Configure.Row) (index : Z) :
  Configure.handleMoveUp index rows = Some rows' ->
  rows' = rows \/
  exists (k : nat) (a b : Configure.Row),
    (index - 1)%Z = Z.of_nat k /\ rows !! k = Some a /\ rows !! S k = Some b /\
    rows' = <[S k := a]> (<[k := b]> rows).
Proof.
  unfold Configure.handleMoveUp. intros Hmove.
  destruct (index =? 0)%Z; [injection Hmove as <-; left; reflexivity |].
  replace index with (index - 1 + 1)%Z in Hmove at 2 by lia.
  right. apply swapRows_adjacent_inv, Hmove.
Qed.

Lemma handleMoveDown_swap (rows rows' : list Configure.Row) (index : Z) :
  Configure.handleMoveDown index rows = Some rows' ->
  rows' = rows \/
  exists (k : nat) (a b : Configure.Row),
    index = Z.of_nat k /\ rows !! k = Some a /\ rows !! S k = Some b /\
    rows' = <[S k := a]> (<[k := b]> rows).
Proof.
  unfold Configure.handleMoveDown. intros Hmove.
  destruct (index =? Z.of_nat (length rows) - 1)%Z;
    [injection Hmove as <-; left; reflexivity |].
  right. apply swapRows_adjacent_inv, Hmove.
Qed.

Lemma move_perm (rows rows' : list Configure.Row) (index : Z) :
  Configure.handleMoveUp index rows = Some rows' \/
  Configure.handleMoveDown index rows = Some rows' ->
  rows' ≡ₚ rows.
Proof.
  intros [Hmove | Hmove];
    [apply handleMoveUp_swap in Hmove | apply handleMoveDown_swap in Hmove];
    destruct Hmove as [-> | (k & a & b & _ & Ha & Hb & ->)];
    try reflexivity; apply swap_adjacent_perm; assumption.
Qed.

(** X18. An arrow that moves a row reorders and nothing more: the list
    after [handleMoveUp] or [handleMoveDown] is a permutation of the list
    before, and every row other than the two neighbours that change
    places stays at its index. *)
Theorem move_is_a_neighbour_exchange (rows rows' : list Configure.Row)
    (index : Z) :
  (Configure.handleMoveUp index rows = Some rows' ->
   rows' ≡ₚ rows /\
   forall j : nat,
     j <> Z.to_nat (index - 1) -> j <> Z.to_nat index ->
     rows' !! j = rows !! j) /\
  (Configure.handleMoveDown index rows = Some rows' ->
   rows' ≡ₚ rows /\
   forall j : nat,
     j <> Z.to_nat index -> j <> Z.to_nat (index + 1) ->
     rows' !! j = rows !! j).
Proof.
  split; intros Hmove.
  - split; [apply (move_perm rows rows' index); left; exact Hmove |].
    apply handleMoveUp_swap in Hmove.
    destruct Hmove as [-> | (k & a & b & Hk & Ha & Hb & ->)]; [reflexivity |].
    intros j H1 H2. apply swap_adjacent_others; lia.
  - split; [apply (move_perm rows rows' index); right; exact Hmove |].
    apply handleMoveDown_swap in Hmove.
    destruct Hmove as [-> | (k & a & b & Hk & Ha & Hb & ->)]; [reflexivity |].
    intros j H1 H2. apply swap_adjacent_others; lia.
Qed.

Lemma move_is_a_neighbour_exchange_witness :
  default [] (Configure.handleMoveDown 1 Scenario.threeRows)
    ≡ₚ Scenario.threeRows.
Proof.
  destruct (move_is_a_neighbour_exchange Scenario.threeRows
              (default [] (Configure.handleMoveDown 1 Scenario.threeRows)) 1)
    as [_ Hdown].
  apply Hdown. reflexivity.
Defined.

Lemma ids_loadRows (settings : gmap string string) :
  Configure.id <$> Configure.loadRows settings
  = seq 0 (length (Configure.loadRows settings)).
Proof.
  rewrite loadRows_map, length_fmap, length_seq, <- list_fmap_compose.
  apply list_fmap_id.
Qed.

Lemma ids_update (f : Configure.Row -> Configure.Row) (rows : list Configure.Row) :
  (forall r, Configure.id (f r) = Configure.id r) ->
  Configure.id <$> (f <$> rows) = Configure.id <$> rows.
Proof.
  intros Hf. rewrite <- list_fmap_compose. apply list_fmap_ext.
  intros i r _. apply Hf.
Qed.

Lemma editStep_ids (rows rows' : list Configure.Row) :
  Configure.editStep rows rows' ->
  Configure.id <$> rows ≡ₚ seq 0 (length rows) ->
  Configure.id <$> rows' ≡ₚ seq 0 (length rows').
Proof.
  intros Hstep Hids.
  destruct Hstep as [rows | rows row value Hin | rows row value Hin
                     | rows row value Hin | rows index rows' Hi Hmove
                     | rows index rows' Hi Hmove].
  - unfold Configure.handleAddRow.
    rewrite fmap_app, length_app, Nat.add_1_r, seq_S, Hids. reflexivity.
  - unfold Configure.handleObjectChange.
    rewrite length_fmap, ids_update; [exact Hids |].
    intros r. destruct (decide _); reflexivity.
  - unfold Configure.handleTextChange.
    rewrite length_fmap, ids_update; [exact Hids |].
    intros r. destruct (decide _); reflexivity.
  - unfold Configure.handlePositionChange.
    rewrite length_fmap, ids_update; [exact Hids |].
    intros r. destruct (decide _); reflexivity.
  - rewrite (move_perm rows rows' index (or_introl Hmove)). exact Hids.
  - rewrite (move_perm rows rows' index (or_intror Hmove)). exact Hids.
Qed.

(** X19. As long as no row has been deleted since the dialog loaded its
    rows, whatever was added, edited or moved, the ids of the rows are
    the numbers [0 .. n-1] in some order, hence pairwise distinct, and
    the delete button of a row removes that row alone, the rows after it
    moving up by one. *)
Theorem delete_is_exact_before_any_deletion (settings : gmap string string)
    (rows : list Configure.Row) :
  Configure.editReachable settings rows ->
  Configure.id <$> rows ≡ₚ seq 0 (length rows) /\
  NoDup (Configure.id <$> rows) /\
  forall (i : nat) (row : Configure.Row),
    rows !! i = Some row ->
    Configure.handleDeleteRow (Configure.id row) rows = delete i rows.
Proof.
  intros Hreach.
  assert (Hids : Configure.id <$> rows ≡ₚ seq 0 (length rows)).
  { induction Hreach as [| rows rows' Hreach IH Hstep].
    - rewrite <- ids_loadRows. reflexivity.
    - apply (editStep_ids rows rows' Hstep IH). }
  assert (Hnodup : NoDup (Configure.id <$> rows))
    by (rewrite Hids; apply NoDup_seq).
  split; [exact Hids |]. split; [exact Hnodup |].
  intros i row Hrow. apply handleDeleteRow_unique; assumption.
Qed.

Lemma delete_is_exact_before_any_deletion_witness :
  Configure.id
    <$> Configure.handleDeleteRow 0
          (Configure.handleAddRow (Configure.loadRows Scenario.twoRows))
  = [1; 2]%nat.
Proof.
  destruct (delete_is_exact_before_any_deletion Scenario.twoRows
              (Configure.handleAddRow (Configure.loadRows Scenario.twoRows)))
    as (_ & _ & Hdelete).
  - eapply Configure.edit_step; [apply Configure.edit_loaded |].
    apply Configure.edit_add.
  - assert (Hfirst := Hdelete 0%nat
                        {| Configure.id := 0; Configure.object := "7";
                           Configure.text := "Sales by region";
                           Configure.position := "right" |}
                        ltac:(vm_compute; reflexivity)).
    cbn [Configure.id] in Hfirst. rewrite Hfirst. vm_compute. reflexivity.
Defined.

(** ** A re-configuration that empties the tour *)

(** X20. [refreshTourItems] never clears the boxes: when the settings
    read after a re-configuration give an empty tour, the state keeps the
    grey boxes and the text position laid out for the tour shown before.
    If there are such boxes the render throws, and paints nothing, exactly
    when the colour function throws for the colour and the transparency
    read from the settings; when it returns, the boxes of the tour shown
    before are painted, without an indicator and without a text box. *)
Theorem emptied_tour_keeps_boxes
    (alpha : string -> App.Transparency -> option string)
    (objects : list App.DashboardObject)
    (settings : gmap string string) (s : App.AppState) :
  App.readTourItems objects settings = [] ->
  let s' := App.load objects settings s in
  App.tourItems s' = [] /\
  App.boxPositions s' = App.boxPositions s /\
  App.textPosition s' = App.textPosition s /\
  (forall p : App.Positions,
     App.boxPositions s = Some p ->
     (App.paint alpha s' = None
      <-> alpha (App.backgroundColor s') (App.backgroundTransparency s') = None) /\
     forall v : App.View,
       App.paint alpha s' = Some v ->
       App.v_boxes v = [("top", App.pos_top p); ("left", App.pos_left p);
                        ("right", App.pos_right p); ("bottom", App.pos_bottom p)] /\
       App.v_indicators v = 0%nat /\
       App.v_textBox v = None) /\
  (App.boxPositions s = None ->
   exists v : App.View,
     App.paint alpha s' = Some v /\
     App.v_boxes v = [] /\ App.v_indicators v = 0%nat /\ App.v_textBox v = None).
Proof.
  intros Hempty. cbv zeta.
  assert (Hload : App.load objects settings s
                  = App.refreshTourItems objects settings s).
  { unfold App.load, App.layoutEffect.
    change (App.tourItems (App.refreshTourItems objects settings s))
      with (App.readTourItems objects settings).
    rewrite Hempty. reflexivity. }
  rewrite Hload.
  assert (Hrender : App.v_indicators
                      (App.render (App.refreshTourItems objects settings s)) = 0%nat /\
                    App.v_textBox
                      (App.render (App.refreshTourItems objects settings s)) = None).
  { unfold App.render. cbn [App.v_indicators App.v_textBox].
    change (App.tourItems (App.refreshTourItems objects settings s))
      with (App.readTourItems objects settings).
    rewrite Hempty, at_index_nil. split; reflexivity. }
  destruct Hrender as [Hind Htext].
  split; [exact Hempty |]. do 2 (split; [reflexivity |]).
  split.
  - intros p Hp.
    destruct (paint_boxes alpha (App.refreshTourItems objects settings s) p Hp)
      as [Hthrows Hpaint].
    split; [exact Hthrows |].
    intros v Hv. destruct (Hpaint v Hv) as [-> Hboxes].
    split; [exact Hboxes |]. split; assumption.
  - intros Hnone. eexists. split; [apply paint_no_boxes; exact Hnone |].
    split; [| split; assumption].
    unfold App.render. cbn [App.v_boxes].
    change (App.boxPositions (App.refreshTourItems objects settings s))
      with (App.boxPositions s).
    rewrite Hnone. reflexivity.
Qed.

Lemma emptied_tour_keeps_boxes_witness :
  App.boxPositions
    (App.load Scenario.dashboard ∅
       (App.mount Scenario.dashboard Scenario.oneStep))
  = Some Scenario.computedPositions.
Proof.
  destruct (emptied_tour_keeps_boxes Scenario.alphaOfHex Scenario.dashboard ∅
              (App.mount Scenario.dashboard Scenario.oneStep))
    as (_ & Hbox & _).
  - reflexivity.
  - rewrite Hbox. vm_compute. reflexivity.
Defined.
